(** * deserializer_kiss: marker-framed packets read from a serial byte stream

    A shallow embedding of [deserializer_kiss.py] and the properties of its
    framing loop.  The Python program keeps one [Packet] object, reads
    marker-sized windows from a serial port until one of them decodes to the
    sync marker, then reads the payload, stores its three fields in the
    object and prints them.

    Layout of the development:
    - bytes, exceptions and the fragment of Python's [struct] module that the
      program uses (formats made of ['<'] followed by ['I'] codes);
    - the classes [Marker] and [Packet], with Python objects kept in a heap so
      that object identity is visible;
    - the serial port as a finite list of bytes that will ever arrive, with a
      blocking [read];
    - [main], the loop, producing the trace of what the program did, and
      the sender of the header of the program;
    - the vocabulary of the specification: little-endian values written
      out, the framing state machine, corruption of a payload;
    - the properties: lemmas on each layer, then the claims on the classes
      and on the loop;
    - further properties of the classes, of the sender, of the loop (streams
      of packets, late bytes, a lost byte) and of [log]. *)

From Stdlib Require Import ZArith List Lia Bool.
From Stdlib Require Import Strings.Byte Strings.Ascii Strings.String Strings.HexString.
From stdpp Require Import gmap strings.
Import ListNotations.

Local Open Scope Z_scope.

(** ** Exceptions and results *)

(** The exceptions the modelled code can raise.  [struct_error] is
    [struct.error]; [IndexError] comes from indexing the tuple returned by
    [struct.unpack]; [AttributeError] stands for the use of a reference that
    holds no object.  [unsupported_format] is no exception of Python: it
    marks a format string that the model of [struct] below does not cover,
    whatever Python does with it. *)
Inductive exn : Type :=
| struct_error
| IndexError
| AttributeError
| unsupported_format.

Inductive result (A : Type) : Type :=
| Ok (a : A)
| Raise (e : exn).
Arguments Ok {A} a.
Arguments Raise {A} e.

Definition bind {A B : Type} (r : result A) (k : A -> result B) : result B :=
  match r with
  | Ok a => k a
  | Raise e => Raise e
  end.

Notation "'let*' x ':=' r 'in' k" := (bind r (fun x => k))
  (at level 10, x name, r at level 100, k at level 200).

(** ** Bytes *)

Abbreviation byte := Byte.byte.
Abbreviation bytes := (list Byte.byte).

Definition byte_val (b : byte) : Z := Z.of_N (Byte.to_N b).

(** The byte holding [v mod 256]. *)
Definition byte_of_Z (v : Z) : byte :=
  match Byte.of_N (Z.to_N (v mod 256)) with
  | Some b => b
  | None => Byte.x00
  end.

(** [int.from_bytes(bs, 'little')]: the first byte is the least significant. *)
Fixpoint from_bytes_little (bs : bytes) : Z :=
  match bs with
  | [] => 0
  | b :: rest => byte_val b + 256 * from_bytes_little rest
  end.

(** [v.to_bytes(n, 'little')] for a value that fits. *)
Fixpoint to_bytes_little (n : nat) (v : Z) : bytes :=
  match n with
  | O => []
  | S n' => byte_of_Z v :: to_bytes_little n' (v / 256)
  end.

(** ** The [struct] module, for formats ['<I...I']

    A format is the byte-order character ['<'] (little-endian, standard
    sizes, no padding) followed by codes; the only code the program uses is
    ['I'], an unsigned integer of four bytes.  Python's [struct] knows many
    more formats (other byte orders, other codes, repeat counts); they are
    outside the modelled fragment and are answered with
    [unsupported_format], so that nothing is stated about them. *)
Module struct.

(** Width in bytes of one format code. *)
Definition code_width (c : ascii) : result nat :=
  if Ascii.eqb c "I"%char then Ok 4%nat else Raise unsupported_format.

Fixpoint code_widths (codes : string) : result (list nat) :=
  match codes with
  | EmptyString => Ok []
  | String c rest =>
      let* w := code_width c in
      let* ws := code_widths rest in
      Ok (w :: ws)
  end.

(** The field widths a format describes. *)
Definition parse (format : string) : result (list nat) :=
  match format with
  | String c codes =>
      if Ascii.eqb c "<"%char then code_widths codes
      else Raise unsupported_format
  | EmptyString => Raise unsupported_format
  end.

(** [struct.calcsize(format)] *)
Definition calcsize (format : string) : result nat :=
  let* ws := parse format in
  Ok (list_sum ws).

(** Cut a buffer into consecutive fields of the given widths and decode
    each one. *)
Fixpoint fields (ws : list nat) (buffer : bytes) : list Z :=
  match ws with
  | [] => []
  | w :: ws' =>
      from_bytes_little (firstn w buffer) :: fields ws' (skipn w buffer)
  end.

(** [struct.unpack(format, buffer)]: the buffer must have exactly the size
    of the format ("unpack requires a buffer of n bytes"). *)
Definition unpack (format : string) (buffer : bytes) : result (list Z) :=
  let* ws := parse format in
  if Nat.eqb (List.length buffer) (list_sum ws)
  then Ok (fields ws buffer)
  else Raise struct_error.

(** Encode one value per field; each value must fit its field
    ("argument out of range") and there must be as many values as fields. *)
Fixpoint pack_fields (ws : list nat) (vs : list Z) : result bytes :=
  match ws, vs with
  | [], [] => Ok []
  | w :: ws', v :: vs' =>
      if (0 <=? v) && (v <? 2 ^ (8 * Z.of_nat w))
      then let* rest := pack_fields ws' vs' in Ok (to_bytes_little w v ++ rest)
      else Raise struct_error
  | _, _ => Raise struct_error
  end.

(** [struct.pack(format, v1, v2, ...)] *)
Definition pack (format : string) (vs : list Z) : result bytes :=
  let* ws := parse format in
  pack_fields ws vs.

End struct.

(** ** The classes of the program *)

(** [class Marker]: the sync marker, its format and its size in bytes. *)
Module Marker.

Record t : Type := mk {
  marker : Z;
  format : string;
  length : nat
}.

(** [Marker.__init__] *)
Definition init (marker : Z) (format : string) : result t :=
  let* length := struct.calcsize format in
  Ok (mk marker format length).

(** [Marker.sync] *)
Definition sync (self : t) (bytes_object : bytes) : result bool :=
  let* unpacked := struct.unpack (format self) bytes_object in
  match unpacked with
  | result :: _ => if marker self =? result then Ok true else Ok false
  | [] => Raise IndexError
  end.

End Marker.

(** [class Packet]: a marker component, the payload format and size, and the
    three payload fields.  The [Marker] object is created by the constructor
    and referenced by this packet only, so it is kept inside the record. *)
Module Packet.

Record t : Type := mk {
  marker : Marker.t;
  format : string;
  length : nat;
  x : Z;
  y : Z;
  z : Z
}.

(** [Packet.__init__] *)
Definition init (marker : Z) (marker_format : string) : result t :=
  let* m := Marker.init marker marker_format in
  let format := "<III"%string in
  let* length := struct.calcsize format in
  Ok (mk m format length 0 0 0).

(** [pkt[i]] on the tuple returned by [struct.unpack] *)
Definition item (pkt : list Z) (i : nat) : result Z :=
  match nth_error pkt i with
  | Some v => Ok v
  | None => Raise IndexError
  end.

Definition set_x (self : t) (v : Z) : t :=
  mk (marker self) (format self) (length self) v (y self) (z self).
Definition set_y (self : t) (v : Z) : t :=
  mk (marker self) (format self) (length self) (x self) v (z self).
Definition set_z (self : t) (v : Z) : t :=
  mk (marker self) (format self) (length self) (x self) (y self) v.

(** [Packet.deserialize]: the method returns nothing and assigns the three
    attributes of [self]; the result is the object after the call.  An
    exception is not caught anywhere in the program, so no object state is
    kept for that case. *)
Definition deserialize (self : t) (bytes_object : bytes) : result t :=
  let* pkt := struct.unpack (format self) bytes_object in
  let* v0 := item pkt 0 in
  let self := set_x self v0 in
  let* v1 := item pkt 1 in
  let self := set_y self v1 in
  let* v2 := item pkt 2 in
  let self := set_z self v2 in
  Ok self.

(** ['{:08x}'.format(v)]: lower-case hexadecimal digits, padded with zeros
    to eight characters, the sign counting as one of them. *)
Definition zfill (width : nat) (digits : string) : string :=
  (string_of_list_ascii
     (repeat "0"%char (width - String.length digits)) ++ digits)%string.

Definition format_08x (v : Z) : string :=
  match v with
  | Z0 => zfill 8 "0"
  | Zpos p => zfill 8 (HexString.Raw.of_pos p "")
  | Zneg p => ("-" ++ zfill 7 (HexString.Raw.of_pos p ""))%string
  end.

(** [Packet.log]: the line that is printed. *)
Definition log (self : t) : string :=
  ("x: 0x" ++ format_08x (x self) ++ ", y: 0x" ++ format_08x (y self)
     ++ ", z: 0x" ++ format_08x (z self))%string.

End Packet.

(** ** The heap

    [main] creates one [Packet] object and calls its methods in every
    iteration.  Objects live in a heap and are named by references, so that
    which object a method call reads and writes is part of the model. *)
Abbreviation loc := positive.
Abbreviation heap := (gmap positive Packet.t).

(** Object creation: a reference not yet in use. *)
Definition new (h : heap) (obj : Packet.t) : loc * heap :=
  let l := fresh (dom h) in (l, <[l := obj]> h).

(** ** The serial port

    [pending] holds the bytes that will arrive on the line, [consumed] counts
    the bytes already returned by [read].  [serial.Serial(port, baud)] has no
    timeout, so [read(n)] returns exactly [n] bytes or waits: when fewer than
    [n] bytes will ever arrive the call never returns ([None]). *)
Record Serial : Type := {
  pending : bytes;
  consumed : nat
}.

Definition read (n : nat) (port : Serial) : option (bytes * Serial) :=
  if (n <=? List.length (pending port))%nat
  then Some (firstn n (pending port),
             {| pending := skipn n (pending port);
                consumed := (consumed port + n)%nat |})
  else None.

(** ** The loop *)

(** What the program does, in order: the two kinds of [read] that return
    (with the stream offset of the first byte), and the call of [log] with
    the object it is called on and the values printed. *)
Inductive event : Type :=
| Seek (offset : nat) (window : bytes) (synced : bool)
| Payload (offset : nat) (window : bytes)
| Log (self : loc) (x y z : Z).

(** How a run ends.  The loop has no exit: it waits in a [read] for ever
    ([Blocked]) unless an exception escapes ([Raised]).  [OutOfFuel] is the
    bound on iterations of the model being reached. *)
Inductive outcome : Type :=
| Blocked
| Raised (e : exn)
| OutOfFuel.

Record run : Type := {
  trace : list event;
  final : heap;
  status : outcome
}.

Definition stop (h : heap) (o : outcome) : run :=
  {| trace := []; final := h; status := o |}.

Definition emit (e : event) (r : run) : run :=
  {| trace := e :: trace r; final := final r; status := status r |}.

(** The body of [while True], [fuel] times.  [packet] is the variable of
    [main] holding the reference to the [Packet] object. *)
Fixpoint main_loop (fuel : nat) (packet : loc) (h : heap) (serial_port : Serial)
  : run :=
  match fuel with
  | O => stop h OutOfFuel
  | S fuel' =>
      match h !! packet with
      | None => stop h (Raised AttributeError)
      | Some obj =>
          (* Obtain sync *)
          match read (Marker.length (Packet.marker obj)) serial_port with
          | None => stop h Blocked
          | Some (raw_bytes_object, port1) =>
              let offset := consumed serial_port in
              match Marker.sync (Packet.marker obj) raw_bytes_object with
              | Raise e => stop h (Raised e)
              | Ok false =>
                  emit (Seek offset raw_bytes_object false)
                    (main_loop fuel' packet h port1)
              | Ok true =>
                  emit (Seek offset raw_bytes_object true)
                    (* Read packet *)
                    match read (Packet.length obj) port1 with
                    | None => stop h Blocked
                    | Some (raw_bytes_object, port2) =>
                        emit (Payload (consumed port1) raw_bytes_object)
                          match Packet.deserialize obj raw_bytes_object with
                          | Raise e => stop h (Raised e)
                          | Ok obj' =>
                              let h' := <[packet := obj']> h in
                              emit (Log packet (Packet.x obj') (Packet.y obj')
                                      (Packet.z obj'))
                                (main_loop fuel' packet h' port2)
                          end
                    end
              end
          end
      end
  end.

(** [main] on a line that delivers [stream] and then stays silent.  Every
    iteration that goes on consumes at least one marker, so one more
    iteration than there are bytes is never used up (see
    [main_completes]). *)
Definition main (stream : bytes) : run :=
  match Packet.init 0xdeadbeef "<I" with
  | Raise e => stop ∅ (Raised e)
  | Ok obj =>
      let (packet, h) := new ∅ obj in
      let serial_port := {| pending := stream; consumed := 0 |} in
      main_loop (S (List.length stream)) packet h serial_port
  end.

(** The records reported, in order. *)
Definition reports (tr : list event) : list (Z * Z * Z) :=
  flat_map (fun e => match e with
                     | Log _ x y z => [(x, y, z)]
                     | _ => []
                     end) tr.

(** ** The sender, from the header of the program *)

(** [Packet.serialize] of the sender: [struct.pack('<IIII', m, x, y, z)]. *)
Definition serialize (m x y z : Z) : result bytes :=
  struct.pack "<IIII" [m; x; y; z].

(** The marker [0xdeadbeef] as it travels on the line. *)
Definition marker_bytes : bytes := [Byte.xef; Byte.xbe; Byte.xad; Byte.xde].

(** * Specification vocabulary

    The notions the properties are stated with. *)

(** ** Values and payloads *)

(** An unsigned 32-bit value. *)
Definition u32 (v : Z) : Prop := 0 <= v < 2 ^ 32.

(** The unsigned 32-bit little-endian value of four bytes, written out. *)
Definition u32_le (b0 b1 b2 b3 : byte) : Z :=
  byte_val b0 + 2 ^ 8 * byte_val b1 + 2 ^ 16 * byte_val b2
  + 2 ^ 24 * byte_val b3.

(** The same for the four bytes of [w] that start at index [i]. *)
Definition u32_at (w : bytes) (i : nat) : Z :=
  u32_le (nth i w Byte.x00) (nth (i + 1) w Byte.x00)
         (nth (i + 2) w Byte.x00) (nth (i + 3) w Byte.x00).

(** The record a 12-byte payload stands for. *)
Definition payload_fields (w : bytes) : Z * Z * Z :=
  (u32_at w 0, u32_at w 4, u32_at w 8).

(** The payload bytes of a record. *)
Definition payload_of (x y z : Z) : bytes :=
  to_bytes_little 4 x ++ to_bytes_little 4 y ++ to_bytes_little 4 z.

(** A SEEKING window that is not the marker. *)
Definition non_matching (w : bytes) : Prop :=
  List.length w = 4%nat /\ w <> marker_bytes.

(** ** The objects of [main] *)

(** The marker built by [Marker(0xdeadbeef, '<I')] and a packet around it,
    whatever its fields currently hold. *)
Definition the_marker : Marker.t := Marker.mk 0xdeadbeef "<I" 4.

Definition the_packet (x y z : Z) : Packet.t :=
  Packet.mk the_marker "<III" 12 x y z.

Definition packet_of (v : Z * Z * Z) : Packet.t :=
  let '(x, y, z) := v in the_packet x y z.

(** The variable [packet] refers to the object [main] created, with some
    values in its fields. *)
Definition holds_packet (packet : loc) (h : heap) : Prop :=
  exists x y z, h !! packet = Some (the_packet x y z).

(** The reference of the one object [main] creates. *)
Definition packet_ref : loc := fst (new ∅ (the_packet 0 0 0)).

(** ** Traces *)

(** The framing state machine.  [framing packet c s tr]: from stream offset
    [c], with [s] still to arrive, the loop goes through [tr].  SEEKING takes
    four bytes; a window that is not the marker is dropped and SEEKING starts
    again on the bytes after it; after the marker, DECODING takes twelve
    bytes, reports them and goes back to SEEKING.  Either state waits for
    ever when too few bytes are left. *)
Inductive framing (packet : loc) : nat -> bytes -> list event -> Prop :=
| framing_wait (c : nat) (s : bytes) :
    (List.length s < 4)%nat ->
    framing packet c s []
| framing_reject (c : nat) (w rest : bytes) (tr : list event) :
    List.length w = 4%nat -> w <> marker_bytes ->
    framing packet (c + 4) rest tr ->
    framing packet c (w ++ rest) (Seek c w false :: tr)
| framing_starved (c : nat) (rest : bytes) :
    (List.length rest < 12)%nat ->
    framing packet c (marker_bytes ++ rest) [Seek c marker_bytes true]
| framing_accept (c : nat) (w rest : bytes) (tr : list event) :
    List.length w = 12%nat ->
    framing packet (c + 4 + 12) rest tr ->
    framing packet c (marker_bytes ++ w ++ rest)
      (Seek c marker_bytes true :: Payload (c + 4) w
         :: Log packet (u32_at w 0) (u32_at w 4) (u32_at w 8) :: tr).

(** The rejected windows, as the loop sees them from offset [c]. *)
Fixpoint rejected (c : nat) (ws : list bytes) : list event :=
  match ws with
  | [] => []
  | w :: ws' => Seek c w false :: rejected (c + 4) ws'
  end.

(** The byte strings returned by the reads of a run, in order. *)
Definition windows (tr : list event) : list bytes :=
  flat_map (fun e => match e with
                     | Seek _ w _ => [w]
                     | Payload _ w => [w]
                     | Log _ _ _ _ => []
                     end) tr.

(** The payloads read, in order. *)
Definition payloads (tr : list event) : list bytes :=
  flat_map (fun e => match e with
                     | Payload _ w => [w]
                     | _ => []
                     end) tr.

(** The objects the reports are made on, in order. *)
Definition report_objects (tr : list event) : list loc :=
  flat_map (fun e => match e with
                     | Log self _ _ _ => [self]
                     | _ => []
                     end) tr.

(** The lines printed, in order: [log] prints the three fields of the
    object it is called on. *)
Definition stdout (tr : list event) : list string :=
  flat_map (fun e => match e with
                     | Log _ x y z => [Packet.log (the_packet x y z)]
                     | _ => []
                     end) tr.

(** ** Corruption *)

(** Flip bit [i] (bit 0 is the least significant) of a byte, and bit [k] of a
    byte string, where bit [k] is bit [k mod 8] of byte [k / 8]. *)
Definition flip_in_byte (i : nat) (b : byte) : byte :=
  byte_of_Z (Z.lxor (byte_val b) (2 ^ Z.of_nat i)).

Fixpoint flip_bit (k : nat) (bs : bytes) : bytes :=
  match bs with
  | [] => []
  | b :: rest =>
      if (k <? 8)%nat then flip_in_byte k b :: rest
      else b :: flip_bit (k - 8) rest
  end.

(** The record after bit [k] of its 96 payload bits is flipped. *)
Definition corrupt (k : nat) (v : Z * Z * Z) : Z * Z * Z :=
  let '(x, y, z) := v in
  if (k <? 32)%nat then (Z.lxor x (2 ^ Z.of_nat k), y, z)
  else if (k <? 64)%nat then (x, Z.lxor y (2 ^ Z.of_nat (k - 32)), z)
  else (x, y, Z.lxor z (2 ^ Z.of_nat (k - 64))).

(** ** Example streams *)

(** The payload of the sender in the header of the program:
    [x = 0xaa], [y = 0xbb], [z = 0xcc]. *)
Definition ex_payload : bytes :=
  [Byte.xaa; Byte.x00; Byte.x00; Byte.x00; Byte.xbb; Byte.x00; Byte.x00;
   Byte.x00; Byte.xcc; Byte.x00; Byte.x00; Byte.x00].

(** The payload of [(1, 2, 3)]. *)
Definition other_payload : bytes :=
  [Byte.x01; Byte.x00; Byte.x00; Byte.x00; Byte.x02; Byte.x00; Byte.x00;
   Byte.x00; Byte.x03; Byte.x00; Byte.x00; Byte.x00].

(** Two packets in a row. *)
Definition two_packets : bytes :=
  (marker_bytes ++ ex_payload) ++ (marker_bytes ++ other_payload).


(** ** Streams of packets *)

(** The event [e] of a run that started [d] bytes further on in the
    stream. *)
Definition shift (d : nat) (e : event) : event :=
  match e with
  | Seek off w hit => Seek (d + off) w hit
  | Payload off w => Payload (d + off) w
  | Log self x y z => Log self x y z
  end.

(** [pkt] is the packet the sender of the header makes for the record
    [r]. *)
Definition sent (r : Z * Z * Z) (pkt : bytes) : Prop :=
  let '(x, y, z) := r in serialize 0xdeadbeef x y z = Ok pkt.

(** A record whose three values fit one byte, as those of the sender of the
    header do. *)
Definition one_byte_record (r : Z * Z * Z) : Prop :=
  let '(x, y, z) := r in 0 <= x < 256 /\ 0 <= y < 256 /\ 0 <= z < 256.

(** ** Formats and printed fields *)

(** The format ['<'] followed by [n] codes ['I']: [n] unsigned 32-bit
    little-endian fields. *)
Definition u32_format (n : nat) : string :=
  String "<" (string_of_list_ascii (repeat "I"%char n)).

(** [k] characters ['0']. *)
Definition zeros (k : nat) : string :=
  string_of_list_ascii (repeat "0"%char k).

(** The hexadecimal digit, in lower case, of a value from 0 to 15. *)
Definition hex_digit (d : Z) : ascii :=
  match d with
  | 0 => "0" | 1 => "1" | 2 => "2" | 3 => "3" | 4 => "4" | 5 => "5"
  | 6 => "6" | 7 => "7" | 8 => "8" | 9 => "9" | 10 => "a" | 11 => "b"
  | 12 => "c" | 13 => "d" | 14 => "e" | 15 => "f"
  | _ => "?"
  end%char.

(** The eight hexadecimal digits of an unsigned 32-bit value, the most
    significant first, zeros included. *)
Definition hex8 (v : Z) : string :=
  string_of_list_ascii
    (map (fun i => hex_digit (v / 16 ^ i mod 16)) [7; 6; 5; 4; 3; 2; 1; 0]).

(** The last [n] hexadecimal digits of [v], put in front of [rest]. *)
Fixpoint hex_digits (n : nat) (v : Z) (rest : string) : string :=
  match n with
  | O => rest
  | S n' => hex_digits n' (v / 16) (String (hex_digit (v mod 16)) rest)
  end.

(** ** Two readings that the program does not meet *)

(** C6 as the claim words it: the object is the same after [deserialize] as
    before. *)
Definition deserialize_leaves_object (obj : Packet.t) (w : bytes) : Prop :=
  forall obj', Packet.deserialize obj w = Ok obj' -> obj' = obj.

(** C7 as the claim words it: every report is made from an object of its
    own. *)
Definition fresh_object_per_report (stream : bytes) : Prop :=
  NoDup (report_objects (trace (main stream))).

(** * Properties *)

(** ** Bytes and little-endian integers *)

Lemma byte_val_range (b : byte) : 0 <= byte_val b < 256.
Proof.
  unfold byte_val. pose proof (Byte.to_N_bounded b). lia.
Qed.

Lemma byte_val_inj (a b : byte) : byte_val a = byte_val b -> a = b.
Proof.
  unfold byte_val. intros H. apply N2Z.inj in H.
  pose proof (Byte.of_to_N a) as Ha. rewrite H, Byte.of_to_N in Ha.
  congruence.
Qed.

Lemma byte_val_of_Z (v : Z) : byte_val (byte_of_Z v) = v mod 256.
Proof.
  unfold byte_of_Z, byte_val.
  assert (Hr : 0 <= v mod 256 < 256) by (apply Z.mod_pos_bound; lia).
  destruct (Byte.of_N (Z.to_N (v mod 256))) as [b|] eqn:E.
  - apply Byte.to_of_N in E. rewrite E. lia.
  - apply Byte.of_N_None_iff in E. lia.
Qed.

Lemma byte_of_Z_val (b : byte) : byte_of_Z (byte_val b) = b.
Proof.
  apply byte_val_inj. rewrite byte_val_of_Z.
  apply Z.mod_small, byte_val_range.
Qed.

Lemma from_bytes_little_range (bs : bytes) :
  0 <= from_bytes_little bs < 256 ^ Z.of_nat (List.length bs).
Proof.
  induction bs as [|b bs IH]; simpl from_bytes_little; simpl List.length.
  - simpl. lia.
  - rewrite Nat2Z.inj_succ, Z.pow_succ_r by lia.
    pose proof (byte_val_range b). lia.
Qed.

Lemma from_bytes_little_inj (bs1 bs2 : bytes) :
  List.length bs1 = List.length bs2 ->
  from_bytes_little bs1 = from_bytes_little bs2 -> bs1 = bs2.
Proof.
  revert bs2. induction bs1 as [|a bs1 IH]; intros [|b bs2] Hl Hv;
    simpl in Hl; try discriminate; [reflexivity|].
  simpl in Hv. pose proof (byte_val_range a). pose proof (byte_val_range b).
  assert (byte_val a = byte_val b) by lia.
  f_equal; [now apply byte_val_inj|].
  apply IH; [congruence | lia].
Qed.

Lemma from_to_bytes_little (n : nat) (v : Z) :
  0 <= v < 256 ^ Z.of_nat n ->
  from_bytes_little (to_bytes_little n v) = v.
Proof.
  revert v. induction n as [|n IH]; intros v Hv.
  - simpl in *. lia.
  - cbn [to_bytes_little from_bytes_little]. rewrite byte_val_of_Z.
    rewrite Nat2Z.inj_succ, Z.pow_succ_r in Hv by lia.
    rewrite IH.
    + pose proof (Z.div_mod v 256). lia.
    + split; [apply Z.div_pos; lia | apply Z.div_lt_upper_bound; lia].
Qed.

Lemma to_bytes_little_length (n : nat) (v : Z) :
  List.length (to_bytes_little n v) = n.
Proof.
  revert v. induction n as [|n IH]; intros v; simpl; [reflexivity|].
  now rewrite IH.
Qed.

Lemma to_from_bytes_little (bs : bytes) :
  to_bytes_little (List.length bs) (from_bytes_little bs) = bs.
Proof.
  apply from_bytes_little_inj.
  - apply to_bytes_little_length.
  - apply from_to_bytes_little, from_bytes_little_range.
Qed.

(** ** The classes *)

Lemma Marker_init_main : Marker.init 0xdeadbeef "<I" = Ok the_marker.
Proof. reflexivity. Qed.

Lemma Packet_init_main : Packet.init 0xdeadbeef "<I" = Ok (the_packet 0 0 0).
Proof. reflexivity. Qed.

(** The line of the header of the program. *)
Example log_line :
  Packet.log (the_packet 0xaa 0xbb 0xcc)
  = "x: 0x000000aa, y: 0x000000bb, z: 0x000000cc"%string.
Proof. reflexivity. Qed.

Lemma u32_le_range (b0 b1 b2 b3 : byte) : 0 <= u32_le b0 b1 b2 b3 < 2 ^ 32.
Proof.
  unfold u32_le.
  pose proof (byte_val_range b0). pose proof (byte_val_range b1).
  pose proof (byte_val_range b2). pose proof (byte_val_range b3). lia.
Qed.

Lemma from_bytes_little_4 (b0 b1 b2 b3 : byte) :
  from_bytes_little [b0; b1; b2; b3] = u32_le b0 b1 b2 b3.
Proof. unfold u32_le. cbn [from_bytes_little]. lia. Qed.

Lemma marker_bytes_value : from_bytes_little marker_bytes = 0xdeadbeef.
Proof. reflexivity. Qed.

(** [sync] on a window of the right size answers whether the window decodes
    to the marker value. *)
Lemma sync_window (m : Z) (b0 b1 b2 b3 : byte) :
  Marker.sync (Marker.mk m "<I" 4) [b0; b1; b2; b3]
  = Ok (m =? u32_le b0 b1 b2 b3).
Proof.
  rewrite <- from_bytes_little_4.
  unfold Marker.sync, struct.unpack. cbn.
  now destruct (m =? _).
Qed.

Lemma u32_le_marker_iff (b0 b1 b2 b3 : byte) :
  u32_le b0 b1 b2 b3 = 0xdeadbeef <-> [b0; b1; b2; b3] = marker_bytes.
Proof.
  rewrite <- from_bytes_little_4, <- marker_bytes_value. split.
  - apply from_bytes_little_inj. reflexivity.
  - now intros ->.
Qed.

(** On a window of any other size the unpacking fails. *)
Lemma sync_wrong_size (w : bytes) :
  List.length w <> 4%nat -> Marker.sync the_marker w = Raise struct_error.
Proof.
  intros H. unfold Marker.sync, struct.unpack. cbn.
  destruct (Nat.eqb_spec (List.length w) 4); [contradiction | reflexivity].
Qed.

Lemma sync_marker_bytes : Marker.sync the_marker marker_bytes = Ok true.
Proof. reflexivity. Qed.

Lemma sync_other (w : bytes) :
  List.length w = 4%nat -> w <> marker_bytes ->
  Marker.sync the_marker w = Ok false.
Proof.
  intros Hl Hw.
  do 5 (destruct w as [|? w]; try discriminate Hl).
  unfold the_marker. rewrite sync_window.
  destruct (Z.eqb_spec 0xdeadbeef (u32_le b b0 b1 b2)) as [E|E]; [|reflexivity].
  symmetry in E. apply u32_le_marker_iff in E. contradiction.
Qed.

(** [deserialize] on a window of twelve bytes. *)
Lemma deserialize_window (m : Marker.t) (n : nat) (x0 y0 z0 : Z)
    (b0 b1 b2 b3 b4 b5 b6 b7 b8 b9 b10 b11 : byte) :
  Packet.deserialize (Packet.mk m "<III" n x0 y0 z0)
    [b0; b1; b2; b3; b4; b5; b6; b7; b8; b9; b10; b11]
  = Ok (Packet.mk m "<III" n (u32_le b0 b1 b2 b3) (u32_le b4 b5 b6 b7)
          (u32_le b8 b9 b10 b11)).
Proof.
  rewrite <- !from_bytes_little_4. reflexivity.
Qed.

Lemma deserialize_wrong_size (obj : Packet.t) (w : bytes) :
  Packet.format obj = "<III"%string -> List.length w <> 12%nat ->
  Packet.deserialize obj w = Raise struct_error.
Proof.
  intros Hf H. unfold Packet.deserialize, struct.unpack. rewrite Hf. cbn.
  destruct (Nat.eqb_spec (List.length w) 12); [contradiction | reflexivity].
Qed.

Lemma deserialize_payload (x0 y0 z0 : Z) (w : bytes) :
  List.length w = 12%nat ->
  Packet.deserialize (the_packet x0 y0 z0) w = Ok (packet_of (payload_fields w)).
Proof.
  intros Hl.
  do 13 (destruct w as [|? w]; try discriminate Hl).
  unfold the_packet. rewrite deserialize_window. reflexivity.
Qed.

(** ** The serial port *)

Lemma read_short (n : nat) (port : Serial) :
  (List.length (pending port) < n)%nat -> read n port = None.
Proof.
  intros H. unfold read.
  destruct (Nat.leb_spec n (List.length (pending port))); [lia | reflexivity].
Qed.

Lemma read_window (w rest : bytes) (c : nat) :
  read (List.length w) {| pending := w ++ rest; consumed := c |}
  = Some (w, {| pending := rest; consumed := (c + List.length w)%nat |}).
Proof.
  unfold read. cbn [pending consumed].
  destruct (Nat.leb_spec (List.length w) (List.length (w ++ rest))) as [_|H].
  - rewrite firstn_app, Nat.sub_diag, firstn_all, firstn_O, app_nil_r.
    rewrite skipn_app, Nat.sub_diag, skipn_all, skipn_O. reflexivity.
  - rewrite length_app in H. lia.
Qed.

(** ** One iteration of the loop *)

Section iteration.

Variables (packet : loc) (h : heap).
Hypothesis Hobj : holds_packet packet h.

Lemma main_loop_wait (fuel c : nat) (s : bytes) :
  (List.length s < 4)%nat ->
  main_loop (S fuel) packet h {| pending := s; consumed := c |}
  = stop h Blocked.
Proof.
  intros Hs. destruct Hobj as (x0 & y0 & z0 & Hp).
  cbn [main_loop]. rewrite Hp.
  cbn [the_packet Packet.marker the_marker Marker.length].
  rewrite read_short by (cbn [pending]; lia). reflexivity.
Qed.

Lemma main_loop_reject (fuel c : nat) (w rest : bytes) :
  List.length w = 4%nat -> w <> marker_bytes ->
  main_loop (S fuel) packet h {| pending := w ++ rest; consumed := c |}
  = emit (Seek c w false)
      (main_loop fuel packet h
         {| pending := rest; consumed := (c + 4)%nat |}).
Proof.
  intros Hl Hw. destruct Hobj as (x0 & y0 & z0 & Hp).
  cbn [main_loop]. rewrite Hp.
  cbn [the_packet Packet.marker Marker.length the_marker].
  rewrite <- Hl at 1. rewrite read_window, Hl.
  change (Marker.mk 0xdeadbeef "<I" 4) with the_marker.
  rewrite sync_other by assumption. reflexivity.
Qed.

Lemma main_loop_starved (fuel c : nat) (rest : bytes) :
  (List.length rest < 12)%nat ->
  main_loop (S fuel) packet h
    {| pending := marker_bytes ++ rest; consumed := c |}
  = emit (Seek c marker_bytes true) (stop h Blocked).
Proof.
  intros Hl. destruct Hobj as (x0 & y0 & z0 & Hp).
  cbn [main_loop]. rewrite Hp.
  cbn [the_packet Packet.marker Marker.length the_marker Packet.length].
  change 4%nat with (List.length marker_bytes) at 1.
  rewrite read_window.
  change (Marker.mk 0xdeadbeef "<I" 4) with the_marker.
  rewrite sync_marker_bytes.
  rewrite read_short by (cbn [pending]; lia). reflexivity.
Qed.

Lemma main_loop_accept (fuel c : nat) (w rest : bytes) :
  List.length w = 12%nat ->
  main_loop (S fuel) packet h
    {| pending := marker_bytes ++ w ++ rest; consumed := c |}
  = emit (Seek c marker_bytes true)
      (emit (Payload (c + 4) w)
         (emit (Log packet (u32_at w 0) (u32_at w 4) (u32_at w 8))
            (main_loop fuel packet
               (<[packet := packet_of (payload_fields w)]> h)
               {| pending := rest; consumed := (c + 4 + 12)%nat |}))).
Proof.
  intros Hl. destruct Hobj as (x0 & y0 & z0 & Hp).
  cbn [main_loop]. rewrite Hp.
  cbn [the_packet Packet.marker Marker.length the_marker Packet.length].
  change 4%nat with (List.length marker_bytes) at 1.
  rewrite read_window.
  change (Marker.mk 0xdeadbeef "<I" 4) with the_marker.
  rewrite sync_marker_bytes.
  rewrite <- Hl at 1. rewrite read_window, Hl.
  change (Packet.mk the_marker "<III" 12 x0 y0 z0) with (the_packet x0 y0 z0).
  rewrite deserialize_payload by assumption. reflexivity.
Qed.

End iteration.

Lemma holds_packet_insert (packet : loc) (h : heap) (v : Z * Z * Z) :
  holds_packet packet (<[packet := packet_of v]> h).
Proof.
  destruct v as [[x1 y1] z1]. exists x1, y1, z1.
  apply lookup_insert_eq.
Qed.

(** ** The loop follows the framing state machine *)

(** The four situations of a stream at the start of an iteration. *)
Lemma stream_cases (s : bytes) :
  (List.length s < 4)%nat
  \/ (exists w rest, s = w ++ rest /\ List.length w = 4%nat /\ w <> marker_bytes)
  \/ (exists rest, s = marker_bytes ++ rest /\ (List.length rest < 12)%nat)
  \/ (exists w rest, s = marker_bytes ++ w ++ rest /\ List.length w = 12%nat).
Proof.
  destruct (Nat.lt_ge_cases (List.length s) 4) as [Hs|Hs]; [now left | right].
  pose proof (firstn_skipn 4 s) as Hsplit.
  assert (Hl : List.length (firstn 4 s) = 4%nat)
    by (rewrite length_firstn; lia).
  destruct (List.list_eq_dec Byte.byte_eq_dec (firstn 4 s) marker_bytes) as [E|E].
  - right. rewrite E in Hsplit.
    destruct (Nat.lt_ge_cases (List.length (skipn 4 s)) 12) as [Hr|Hr].
    + left. exists (skipn 4 s). now split.
    + right. exists (firstn 12 (skipn 4 s)), (skipn 12 (skipn 4 s)).
      rewrite firstn_skipn. split; [now symmetry|].
      rewrite length_firstn. lia.
  - left. exists (firstn 4 s), (skipn 4 s). now split.
Qed.

(** The loop follows the state machine, never raises and never runs out of
    iterations, and leaves the packet object in place. *)
Lemma main_loop_framing (fuel : nat) :
  forall (packet : loc) (h : heap) (c : nat) (s : bytes),
    holds_packet packet h ->
    (List.length s < fuel)%nat ->
    let r := main_loop fuel packet h {| pending := s; consumed := c |} in
    framing packet c s (trace r) /\ status r = Blocked
    /\ holds_packet packet (final r).
Proof.
  induction fuel as [|fuel IH]; intros packet h c s Hobj Hfuel; [lia|].
  destruct (stream_cases s)
    as [Hs | [(w & rest & -> & Hl & Hw) | [(rest & -> & Hl)
                                          | (w & rest & -> & Hl)]]].
  - rewrite main_loop_wait by assumption. cbn.
    split; [now constructor | now split].
  - rewrite main_loop_reject by assumption.
    rewrite length_app in Hfuel.
    destruct (IH packet h (c + 4)%nat rest Hobj ltac:(lia)) as (Hf & Hst & Hh).
    cbn. split; [now constructor | now split].
  - rewrite main_loop_starved by assumption. cbn.
    split; [now constructor | now split].
  - rewrite main_loop_accept by assumption.
    rewrite !length_app in Hfuel.
    destruct (IH packet (<[packet := packet_of (payload_fields w)]> h)
                (c + 4 + 12)%nat rest (holds_packet_insert _ _ _) ltac:(lia))
      as (Hf & Hst & Hh).
    cbn. split; [now constructor | now split].
Qed.

(** Two splits of a stream into a window of the same size and a rest agree. *)
Lemma window_split (n : nat) (w1 w2 r1 r2 : bytes) :
  List.length w1 = n -> List.length w2 = n ->
  w1 ++ r1 = w2 ++ r2 -> w1 = w2 /\ r1 = r2.
Proof. intros H1 H2 E. apply app_inj_1; [congruence | assumption]. Qed.

Ltac same_windows :=
  repeat match goal with
    | E : ?a :: ?b :: ?c :: ?d :: ?r = ?w ++ ?s |- _ =>
        change ([a; b; c; d] ++ r = w ++ s) in E
    | E : ?w ++ ?s = ?a :: ?b :: ?c :: ?d :: ?r |- _ =>
        change (w ++ s = [a; b; c; d] ++ r) in E
    | E : _ ++ _ = _ ++ _ |- _ =>
        first [ apply (window_split 4) in E;
                [destruct E; subst | first [assumption | reflexivity] ..]
              | apply (window_split 12) in E;
                [destruct E; subst | first [assumption | reflexivity] ..] ]
    end.

Ltac too_short :=
  repeat match goal with
    | H : context [List.length (_ ++ _)] |- _ => rewrite length_app in H
    end;
  cbn [List.length marker_bytes] in *; lia.

(** The state machine is deterministic. *)
Lemma framing_functional (packet : loc) (c : nat) (s : bytes)
    (tr1 tr2 : list event) :
  framing packet c s tr1 -> framing packet c s tr2 -> tr1 = tr2.
Proof.
  intros H1. revert tr2.
  induction H1 as [c s Hs | c w rest tr Hl Hw _ IH | c rest Hl
                  | c w rest tr Hl _ IH]; intros tr2 H2;
    inversion H2; subst; same_windows;
    try reflexivity; try too_short;
    try (exfalso; match goal with
                  | H : _ <> marker_bytes |- _ => apply H; reflexivity
                  end).
  - f_equal. now apply IH.
  - do 3 f_equal. now apply IH.
Qed.

(** ** [main] *)

Lemma main_unfold (stream : bytes) :
  main stream
  = main_loop (S (List.length stream)) packet_ref
      {[ packet_ref := the_packet 0 0 0 ]}
      {| pending := stream; consumed := 0 |}.
Proof. reflexivity. Qed.

Lemma holds_packet_initial :
  holds_packet packet_ref {[ packet_ref := the_packet 0 0 0 ]}.
Proof. exists 0, 0, 0. apply lookup_singleton_eq. Qed.

(** Every run of [main] is a complete run of the state machine: the program
    ends up waiting for bytes. *)
Lemma main_framing (stream : bytes) :
  framing packet_ref 0 stream (trace (main stream)).
Proof.
  rewrite main_unfold.
  apply (main_loop_framing _ _ _ _ _ holds_packet_initial). lia.
Qed.

Lemma main_completes (stream : bytes) : status (main stream) = Blocked.
Proof.
  rewrite main_unfold.
  apply (main_loop_framing _ _ _ _ _ holds_packet_initial). lia.
Qed.

(** So a trace of the state machine is the trace of [main]. *)
Lemma main_trace (stream : bytes) (tr : list event) :
  framing packet_ref 0 stream tr -> trace (main stream) = tr.
Proof.
  intros H. exact (framing_functional _ _ _ _ _ (main_framing stream) H).
Qed.

(** * The claims about the classes *)

(** C2 (marker selectivity).  The marker [main] configures is
    [Marker(0xdeadbeef, '<I')].  On every window of four bytes its [sync]
    returns normally, and it returns [True] exactly when the unsigned 32-bit
    little-endian value of the window is [0xDEADBEEF]; on every other window
    of four bytes it returns [False], in particular on the all-zero and the
    all-ones window. *)
Theorem sync_selects_the_marker :
  Marker.init 0xdeadbeef "<I" = Ok the_marker
  /\ (forall b0 b1 b2 b3 : byte,
         (Marker.sync the_marker [b0; b1; b2; b3] = Ok true
          <-> u32_le b0 b1 b2 b3 = 0xdeadbeef)
         /\ (Marker.sync the_marker [b0; b1; b2; b3] = Ok false
             <-> u32_le b0 b1 b2 b3 <> 0xdeadbeef))
  /\ Marker.sync the_marker [Byte.x00; Byte.x00; Byte.x00; Byte.x00] = Ok false
  /\ Marker.sync the_marker [Byte.xff; Byte.xff; Byte.xff; Byte.xff] = Ok false.
Proof.
  split; [reflexivity|]. split; [|split; reflexivity].
  intros b0 b1 b2 b3. unfold the_marker. rewrite sync_window.
  destruct (Z.eqb_spec 0xdeadbeef (u32_le b0 b1 b2 b3)) as [E|E].
  - split; split; intros H; congruence.
  - split; split; intros H; congruence.
Qed.

(** C5 (field layout).  On every window of twelve bytes [deserialize] cuts
    the window into three consecutive chunks of four bytes and stores the
    unsigned 32-bit little-endian value of bytes 0-3 in [x], of bytes 4-7 in
    [y] and of bytes 8-11 in [z]; each value lies in [0, 2^32). *)
Theorem deserialize_field_layout (m : Marker.t) (n : nat) (x0 y0 z0 : Z)
    (b0 b1 b2 b3 b4 b5 b6 b7 b8 b9 b10 b11 : byte) :
  exists obj : Packet.t,
    Packet.deserialize (Packet.mk m "<III" n x0 y0 z0)
      [b0; b1; b2; b3; b4; b5; b6; b7; b8; b9; b10; b11] = Ok obj
    /\ Packet.x obj = u32_le b0 b1 b2 b3
    /\ Packet.y obj = u32_le b4 b5 b6 b7
    /\ Packet.z obj = u32_le b8 b9 b10 b11
    /\ 0 <= Packet.x obj < 2 ^ 32
    /\ 0 <= Packet.y obj < 2 ^ 32
    /\ 0 <= Packet.z obj < 2 ^ 32.
Proof.
  eexists. split; [apply deserialize_window|].
  cbn [Packet.x Packet.y Packet.z].
  repeat split; try reflexivity; apply u32_le_range.
Qed.

(** C8 (layout error).  [deserialize] raises [struct.error], the layout
    error of the program, exactly when the window is not twelve bytes long,
    and it succeeds exactly when the window is twelve bytes long. *)
Theorem deserialize_fails_iff_wrong_size (m : Marker.t) (n : nat)
    (x0 y0 z0 : Z) (w : bytes) :
  (Packet.deserialize (Packet.mk m "<III" n x0 y0 z0) w = Raise struct_error
   <-> List.length w <> 12%nat)
  /\ ((exists obj, Packet.deserialize (Packet.mk m "<III" n x0 y0 z0) w = Ok obj)
      <-> List.length w = 12%nat).
Proof.
  destruct (Nat.eq_dec (List.length w) 12%nat) as [Hl|Hl].
  - do 13 (destruct w as [|? w]; try discriminate Hl).
    rewrite deserialize_window.
    split; split; intros H; try congruence; try reflexivity.
    eexists. reflexivity.
  - rewrite deserialize_wrong_size by (assumption || reflexivity).
    split; split; intros H; try congruence; try reflexivity.
    destruct H as [obj H]. discriminate H.
Qed.

(** C10 (no dependence on earlier contents).  For every window of twelve
    bytes and any two packet objects, whatever their fields held before,
    [deserialize] succeeds on both and leaves the same [x], [y] and [z],
    those the window stands for. *)
Theorem deserialize_depends_on_window_only (m1 m2 : Marker.t) (n1 n2 : nat)
    (x1 y1 z1 x2 y2 z2 : Z) (w : bytes) :
  List.length w = 12%nat ->
  exists obj1 obj2 : Packet.t,
    Packet.deserialize (Packet.mk m1 "<III" n1 x1 y1 z1) w = Ok obj1
    /\ Packet.deserialize (Packet.mk m2 "<III" n2 x2 y2 z2) w = Ok obj2
    /\ Packet.x obj1 = Packet.x obj2
    /\ Packet.y obj1 = Packet.y obj2
    /\ Packet.z obj1 = Packet.z obj2
    /\ (Packet.x obj1, Packet.y obj1, Packet.z obj1) = payload_fields w.
Proof.
  intros Hl.
  do 13 (destruct w as [|? w]; try discriminate Hl).
  do 2 eexists. rewrite !deserialize_window.
  repeat split; reflexivity.
Qed.

(** A packet left over from an earlier iteration and the freshly constructed
    one decode the same window to the same fields. *)
Lemma deserialize_depends_on_window_only_witness :
  List.length ex_payload = 12%nat
  /\ exists obj1 obj2 : Packet.t,
    Packet.deserialize (the_packet 1 2 3) ex_payload = Ok obj1
    /\ Packet.deserialize (the_packet 0 0 0) ex_payload = Ok obj2
    /\ Packet.x obj1 = Packet.x obj2
    /\ Packet.y obj1 = Packet.y obj2
    /\ Packet.z obj1 = Packet.z obj2
    /\ (Packet.x obj1, Packet.y obj1, Packet.z obj1) = payload_fields ex_payload.
Proof.
  split; [reflexivity|].
  apply (deserialize_depends_on_window_only
           the_marker the_marker 12 12 1 2 3 0 0 0 ex_payload).
  reflexivity.
Defined.

(** C6 as stated fails: the freshly constructed packet has [x = 0]; after
    [deserialize] on a window starting with [AA 00 00 00] it has
    [x = 0xAA]. *)
Lemma deserialize_changes_object :
  ~ deserialize_leaves_object (the_packet 0 0 0) ex_payload.
Proof.
  intros H. specialize (H (the_packet 0xaa 0xbb 0xcc) eq_refl).
  discriminate H.
Qed.

(** C6, amended.  [deserialize] is a function of the object and the window;
    on a window of twelve bytes its only effect is on the attributes [x],
    [y] and [z] of the object it is called on, which it overwrites with the
    fields of the window; [marker], [format] and [length] are as before. *)
Theorem deserialize_effect (obj : Packet.t) (w : bytes) :
  Packet.format obj = "<III"%string ->
  List.length w = 12%nat ->
  exists obj' : Packet.t,
    Packet.deserialize obj w = Ok obj'
    /\ Packet.marker obj' = Packet.marker obj
    /\ Packet.format obj' = Packet.format obj
    /\ Packet.length obj' = Packet.length obj
    /\ (Packet.x obj', Packet.y obj', Packet.z obj') = payload_fields w.
Proof.
  intros Hf Hl. destruct obj as [m f n x0 y0 z0]. cbn in Hf. subst f.
  do 13 (destruct w as [|? w]; try discriminate Hl).
  eexists. rewrite deserialize_window. repeat split; reflexivity.
Qed.

Lemma deserialize_effect_witness :
  Packet.format (the_packet 0 0 0) = "<III"%string
  /\ List.length ex_payload = 12%nat
  /\ exists obj' : Packet.t,
    Packet.deserialize (the_packet 0 0 0) ex_payload = Ok obj'
    /\ Packet.marker obj' = the_marker
    /\ Packet.format obj' = "<III"%string
    /\ Packet.length obj' = 12%nat
    /\ (Packet.x obj', Packet.y obj', Packet.z obj') = (0xaa, 0xbb, 0xcc).
Proof.
  split; [reflexivity|]. split; [reflexivity|].
  apply (deserialize_effect (the_packet 0 0 0) ex_payload); reflexivity.
Defined.

(** * The sender *)

Lemma u32_le_to_bytes (v : Z) :
  0 <= v < 2 ^ 32 ->
  u32_le (byte_of_Z v) (byte_of_Z (v / 256)) (byte_of_Z (v / 256 / 256))
         (byte_of_Z (v / 256 / 256 / 256)) = v.
Proof.
  intros Hv. rewrite <- from_bytes_little_4.
  change (from_bytes_little (to_bytes_little 4 v) = v).
  apply from_to_bytes_little. exact Hv.
Qed.

Lemma u32_check (v : Z) :
  u32 v -> (0 <=? v) && (v <? 2 ^ (8 * Z.of_nat 4)) = true.
Proof.
  unfold u32. intros Hv. apply andb_true_iff. split.
  - apply Z.leb_le. lia.
  - apply Z.ltb_lt. change (2 ^ (8 * Z.of_nat 4)) with (2 ^ 32). lia.
Qed.

Lemma u32_check_inv (v : Z) :
  (0 <=? v) && (v <? 2 ^ (8 * Z.of_nat 4)) = true -> u32 v.
Proof.
  intros H. apply andb_true_iff in H as [H1 H2].
  apply Z.leb_le in H1. apply Z.ltb_lt in H2.
  change (2 ^ (8 * Z.of_nat 4)) with (2 ^ 32) in H2. unfold u32. lia.
Qed.

Lemma payload_of_length (x y z : Z) : List.length (payload_of x y z) = 12%nat.
Proof. reflexivity. Qed.

Lemma payload_fields_of (x y z : Z) :
  u32 x -> u32 y -> u32 z -> payload_fields (payload_of x y z) = (x, y, z).
Proof.
  intros Hx Hy Hz. unfold payload_fields, u32_at, payload_of.
  cbn [to_bytes_little app nth Nat.add].
  now rewrite !u32_le_to_bytes.
Qed.

(** The sender's packet is the marker followed by the payload bytes, and the
    sender raises exactly when a value does not fit 32 bits. *)
Lemma serialize_ok (x y z : Z) :
  u32 x -> u32 y -> u32 z ->
  serialize 0xdeadbeef x y z = Ok (marker_bytes ++ payload_of x y z).
Proof.
  intros Hx Hy Hz. unfold serialize, struct.pack.
  cbn [struct.parse struct.code_widths struct.code_width Ascii.eqb
         Bool.eqb bind struct.pack_fields].
  rewrite (u32_check x Hx), (u32_check y Hy), (u32_check z Hz).
  reflexivity.
Qed.

Lemma serialize_inv (x y z : Z) (pkt : bytes) :
  serialize 0xdeadbeef x y z = Ok pkt ->
  u32 x /\ u32 y /\ u32 z /\ pkt = marker_bytes ++ payload_of x y z.
Proof.
  unfold serialize, struct.pack.
  cbn [struct.parse struct.code_widths struct.code_width Ascii.eqb
         Bool.eqb bind struct.pack_fields].
  destruct ((0 <=? x) && (x <? 2 ^ (8 * Z.of_nat 4))) eqn:Ex;
    [|cbn; discriminate].
  destruct ((0 <=? y) && (y <? 2 ^ (8 * Z.of_nat 4))) eqn:Ey;
    [|cbn; discriminate].
  destruct ((0 <=? z) && (z <? 2 ^ (8 * Z.of_nat 4))) eqn:Ez;
    [|cbn; discriminate].
  intros H. cbn in H. injection H as <-.
  repeat split; try (now apply u32_check_inv). 
Qed.

(** * The claims about the loop *)

(** What the loop does on one packet followed by silence. *)
Lemma framing_one_packet (packet : loc) (c : nat) (w : bytes) :
  List.length w = 12%nat ->
  framing packet c (marker_bytes ++ w)
    [Seek c marker_bytes true; Payload (c + 4) w;
     Log packet (u32_at w 0) (u32_at w 4) (u32_at w 8)].
Proof.
  intros Hl. rewrite <- (app_nil_r w) at 1.
  apply framing_accept; [assumption|].
  apply framing_wait. cbn. lia.
Qed.

Lemma framing_rejected (packet : loc) (ws : list bytes) :
  Forall non_matching ws ->
  forall (c : nat) (rest : bytes) (tr : list event),
    framing packet (c + 4 * List.length ws) rest tr ->
    framing packet c (concat ws ++ rest) (rejected c ws ++ tr).
Proof.
  induction 1 as [|w ws [Hl Hw] _ IH]; intros c rest tr Hfr.
  - cbn in *. now rewrite Nat.add_0_r in Hfr.
  - cbn [concat rejected app]. rewrite <- app_assoc.
    apply framing_reject; [assumption ..|].
    apply IH. cbn [List.length] in Hfr.
    now replace (c + 4 + 4 * List.length ws)%nat
      with (c + 4 * S (List.length ws))%nat by lia.
Qed.

Lemma reports_rejected (c : nat) (ws : list bytes) (tr : list event) :
  reports (rejected c ws ++ tr) = reports tr.
Proof.
  revert c. induction ws as [|w ws IH]; intros c; [reflexivity|].
  cbn. apply IH.
Qed.

(** C1 (round trip).  For all [x], [y], [z] in [0, 2^32) the sender's packet
    is the 16 bytes [marker || x || y || z], each in four little-endian
    bytes, and [main] on these bytes syncs on the first window, reads the
    payload and reports exactly one record, [(x, y, z)], before it waits for
    more bytes.  The bytes [EF BE AD DE AA 00 00 00 BB 00 00 00 CC 00 00 00]
    are the packet of [(0xAA, 0xBB, 0xCC)] and yield that one record, printed
    as the one line the header of the program shows. *)
Theorem round_trip (x y z : Z) :
  0 <= x < 2 ^ 32 -> 0 <= y < 2 ^ 32 -> 0 <= z < 2 ^ 32 ->
  (exists pkt : bytes,
      serialize 0xdeadbeef x y z = Ok pkt
      /\ pkt = to_bytes_little 4 0xdeadbeef ++ to_bytes_little 4 x
               ++ to_bytes_little 4 y ++ to_bytes_little 4 z
      /\ List.length pkt = 16%nat
      /\ reports (trace (main pkt)) = [(x, y, z)]
      /\ status (main pkt) = Blocked)
  /\ serialize 0xdeadbeef 0xaa 0xbb 0xcc = Ok (marker_bytes ++ ex_payload)
  /\ reports (trace (main (marker_bytes ++ ex_payload)))
     = [(0x000000aa, 0x000000bb, 0x000000cc)]
  /\ stdout (trace (main (marker_bytes ++ ex_payload)))
     = ["x: 0x000000aa, y: 0x000000bb, z: 0x000000cc"%string].
Proof.
  intros Hx Hy Hz. split; [|repeat split; reflexivity].
  exists (marker_bytes ++ payload_of x y z).
  split; [now apply serialize_ok|].
  split; [reflexivity|]. split; [reflexivity|].
  split; [|apply main_completes].
  rewrite (main_trace _ _ (framing_one_packet packet_ref 0 _
                             (payload_of_length x y z))).
  cbn [reports flat_map app].
  pose proof (payload_fields_of x y z Hx Hy Hz) as Hp.
  unfold payload_fields in Hp. injection Hp as -> -> ->. reflexivity.
Qed.

Lemma round_trip_witness :
  (0 <= 1 < 2 ^ 32 /\ 0 <= 0xffffffff < 2 ^ 32 /\ 0 <= 0 < 2 ^ 32)
  /\ exists pkt : bytes,
      serialize 0xdeadbeef 1 0xffffffff 0 = Ok pkt
      /\ reports (trace (main pkt)) = [(1, 0xffffffff, 0)].
Proof.
  split; [lia|].
  destruct (round_trip 1 0xffffffff 0 ltac:(lia) ltac:(lia) ltac:(lia))
    as [(pkt & Hs & _ & _ & Hr & _) _].
  exists pkt. split; assumption.
Defined.

(** C4 (resync discards non-matching windows).  For every list [ws] of
    four-byte windows none of which is the marker (of any length [N],
    including none) and every packet [pkt] of the sender for [(x, y, z)],
    [main] on the windows followed by the packet rejects the [N] windows one
    by one, syncs at offset [4 * N], reads the payload and reports exactly
    one record, [(x, y, z)]: the reported values are those of the payload of
    the packet and the rejected windows do not enter them. *)
Theorem resync_discards_windows (ws : list bytes) (x y z : Z) (pkt : bytes) :
  Forall non_matching ws ->
  serialize 0xdeadbeef x y z = Ok pkt ->
  trace (main (concat ws ++ pkt))
  = rejected 0 ws
      ++ [Seek (4 * List.length ws) marker_bytes true;
          Payload (4 * List.length ws + 4) (skipn 4 pkt);
          Log packet_ref x y z]
  /\ reports (trace (main (concat ws ++ pkt))) = [(x, y, z)]
  /\ payload_fields (skipn 4 pkt) = (x, y, z)
  /\ status (main (concat ws ++ pkt)) = Blocked.
Proof.
  intros Hws Hpkt.
  apply serialize_inv in Hpkt as (Hx & Hy & Hz & ->).
  change (skipn 4 (marker_bytes ++ payload_of x y z)) with (payload_of x y z).
  pose proof (payload_fields_of x y z Hx Hy Hz) as Hp.
  assert (Htr : trace (main (concat ws ++ marker_bytes ++ payload_of x y z))
                = rejected 0 ws
                    ++ [Seek (4 * List.length ws) marker_bytes true;
                        Payload (4 * List.length ws + 4) (payload_of x y z);
                        Log packet_ref x y z]).
  { apply main_trace. apply framing_rejected; [assumption|].
    cbn [Nat.add].
    pose proof (framing_one_packet packet_ref (4 * List.length ws)
                  (payload_of x y z) (payload_of_length x y z)) as Hfr.
    unfold payload_fields in Hp. injection Hp as Ex Ey Ez.
    rewrite Ex, Ey, Ez in Hfr. exact Hfr. }
  split; [exact Htr|]. split; [|split].
  - rewrite Htr, reports_rejected. reflexivity.
  - exact Hp.
  - apply main_completes.
Qed.

Lemma resync_discards_windows_witness :
  Forall non_matching [[Byte.x00; Byte.x00; Byte.x00; Byte.x00];
                       [Byte.xde; Byte.xad; Byte.xbe; Byte.xef]]
  /\ serialize 0xdeadbeef 0xaa 0xbb 0xcc = Ok (marker_bytes ++ ex_payload)
  /\ reports
       (trace (main (concat [[Byte.x00; Byte.x00; Byte.x00; Byte.x00];
                             [Byte.xde; Byte.xad; Byte.xbe; Byte.xef]]
                       ++ marker_bytes ++ ex_payload)))
     = [(0xaa, 0xbb, 0xcc)].
Proof.
  assert (Hws : Forall non_matching
                  [[Byte.x00; Byte.x00; Byte.x00; Byte.x00];
                   [Byte.xde; Byte.xad; Byte.xbe; Byte.xef]]).
  { repeat constructor; discriminate. }
  split; [exact Hws|]. split; [reflexivity|].
  exact (proj1 (proj2 (resync_discards_windows _ 0xaa 0xbb 0xcc
                         (marker_bytes ++ ex_payload) Hws eq_refl))).
Defined.

(** ** Corrupted payloads *)

Lemma byte_val_flip (i : nat) (b : byte) :
  (i < 8)%nat ->
  byte_val (flip_in_byte i b) = Z.lxor (byte_val b) (2 ^ Z.of_nat i).
Proof.
  intros Hi. unfold flip_in_byte. rewrite byte_val_of_Z.
  apply Z.mod_small.
  do 8 (destruct i as [|i]; [destruct b; vm_compute; split; congruence|]).
  lia.
Qed.

Lemma testbit_cons (a r n : Z) :
  0 <= a < 256 -> 0 <= n ->
  Z.testbit (a + 256 * r) n
  = if n <? 8 then Z.testbit a n else Z.testbit r (n - 8).
Proof.
  intros Ha Hn. destruct (Z.ltb_spec n 8) as [Hlt|Hge].
  - rewrite <- (Z.mod_pow2_bits_low (a + 256 * r) 8 n) by lia.
    change (2 ^ 8) with 256.
    rewrite (Z.mul_comm 256 r), Z.mod_add, Z.mod_small by lia. reflexivity.
  - replace n with ((n - 8) + 8) at 1 by lia.
    rewrite <- Z.div_pow2_bits by lia.
    change (2 ^ 8) with 256.
    rewrite (Z.mul_comm 256 r), Z.div_add, Z.div_small by lia. reflexivity.
Qed.

Lemma flip_low (a r : Z) (i : nat) :
  0 <= a < 256 -> 0 <= Z.lxor a (2 ^ Z.of_nat i) < 256 -> (i < 8)%nat ->
  Z.lxor a (2 ^ Z.of_nat i) + 256 * r
  = Z.lxor (a + 256 * r) (2 ^ Z.of_nat i).
Proof.
  intros Ha Ha' Hi. apply Z.bits_inj'. intros n Hn.
  rewrite Z.lxor_spec, !testbit_cons by assumption.
  destruct (Z.ltb_spec n 8) as [Hlt|Hge].
  - now rewrite Z.lxor_spec.
  - rewrite Z.pow2_bits_false by lia. now rewrite xorb_false_r.
Qed.

Lemma flip_high (a r : Z) (k : nat) :
  0 <= a < 256 -> (8 <= k)%nat ->
  a + 256 * Z.lxor r (2 ^ Z.of_nat (k - 8))
  = Z.lxor (a + 256 * r) (2 ^ Z.of_nat k).
Proof.
  intros Ha Hk. apply Z.bits_inj'. intros n Hn.
  rewrite Z.lxor_spec, !testbit_cons by assumption.
  destruct (Z.ltb_spec n 8) as [Hlt|Hge].
  - rewrite Z.pow2_bits_false by lia. now rewrite xorb_false_r.
  - rewrite Z.lxor_spec. f_equal.
    rewrite !Z.pow2_bits_eqb by lia.
    destruct (Z.eqb_spec (Z.of_nat (k - 8)) (n - 8));
      destruct (Z.eqb_spec (Z.of_nat k) n); try reflexivity; lia.
Qed.

Lemma from_bytes_little_flip (bs : bytes) :
  forall k : nat,
    (k < 8 * List.length bs)%nat ->
    from_bytes_little (flip_bit k bs)
    = Z.lxor (from_bytes_little bs) (2 ^ Z.of_nat k).
Proof.
  induction bs as [|b bs IH]; intros k Hk; [cbn in Hk; lia|].
  cbn [flip_bit]. destruct (Nat.ltb_spec k 8) as [Hlt|Hge].
  - cbn [from_bytes_little]. rewrite byte_val_flip by assumption.
    apply flip_low; [apply byte_val_range | | assumption].
    rewrite <- byte_val_flip by assumption. apply byte_val_range.
  - cbn [from_bytes_little]. cbn [List.length] in Hk.
    rewrite IH by lia.
    apply flip_high; [apply byte_val_range | assumption].
Qed.

Lemma flip_bit_length (bs : bytes) (k : nat) :
  List.length (flip_bit k bs) = List.length bs.
Proof.
  revert k. induction bs as [|b bs IH]; intros k; [reflexivity|].
  cbn [flip_bit]. destruct (k <? 8)%nat; cbn; [reflexivity|].
  now rewrite IH.
Qed.

Lemma flip_bit_app (a b : bytes) :
  forall k : nat,
    flip_bit k (a ++ b)
    = if (k <? 8 * List.length a)%nat then flip_bit k a ++ b
      else a ++ flip_bit (k - 8 * List.length a) b.
Proof.
  induction a as [|c a IH]; intros k.
  - cbn. now rewrite Nat.sub_0_r.
  - cbn [app flip_bit List.length].
    destruct (Nat.ltb_spec k 8) as [Hlt|Hge].
    + destruct (Nat.ltb_spec k (8 * S (List.length a))); [reflexivity | lia].
    + rewrite IH.
      destruct (Nat.ltb_spec (k - 8) (8 * List.length a));
        destruct (Nat.ltb_spec k (8 * S (List.length a))); try lia.
      * reflexivity.
      * cbn [app]. do 3 f_equal. lia.
Qed.

Lemma payload_fields_app (a b c : bytes) :
  List.length a = 4%nat -> List.length b = 4%nat -> List.length c = 4%nat ->
  payload_fields (a ++ b ++ c)
  = (from_bytes_little a, from_bytes_little b, from_bytes_little c).
Proof.
  intros Ha Hb Hc.
  do 5 (destruct a as [|? a]; try discriminate Ha).
  do 5 (destruct b as [|? b]; try discriminate Hb).
  do 5 (destruct c as [|? c]; try discriminate Hc).
  rewrite !from_bytes_little_4. reflexivity.
Qed.

Lemma lxor_pow2_neq (v : Z) (k : nat) : Z.lxor v (2 ^ Z.of_nat k) <> v.
Proof.
  intros H.
  assert (E : Z.lxor v (Z.lxor v (2 ^ Z.of_nat k)) = 0)
    by (rewrite H; apply Z.lxor_nilpotent).
  rewrite <- Z.lxor_assoc, Z.lxor_nilpotent, Z.lxor_0_l in E.
  pose proof (Z.pow_pos_nonneg 2 (Z.of_nat k)). lia.
Qed.

Lemma payload_fields_flip (x y z : Z) (k : nat) :
  u32 x -> u32 y -> u32 z -> (k < 96)%nat ->
  payload_fields (flip_bit k (payload_of x y z)) = corrupt k (x, y, z).
Proof.
  intros Hx Hy Hz Hk. unfold payload_of, corrupt.
  rewrite flip_bit_app, to_bytes_little_length.
  change (8 * 4)%nat with 32%nat.
  destruct (Nat.ltb_spec k 32) as [H1|H1].
  - rewrite payload_fields_app
      by (rewrite ?flip_bit_length; apply to_bytes_little_length).
    rewrite from_bytes_little_flip
      by (rewrite to_bytes_little_length; lia).
    now rewrite !from_to_bytes_little.
  - rewrite flip_bit_app, to_bytes_little_length.
    change (8 * 4)%nat with 32%nat.
    destruct (Nat.ltb_spec (k - 32) 32) as [H2|H2];
      destruct (Nat.ltb_spec k 64) as [H3|H3]; try lia.
    + rewrite payload_fields_app
        by (rewrite ?flip_bit_length; apply to_bytes_little_length).
      rewrite from_bytes_little_flip
        by (rewrite to_bytes_little_length; lia).
      now rewrite !from_to_bytes_little.
    + rewrite payload_fields_app
        by (rewrite ?flip_bit_length; apply to_bytes_little_length).
      rewrite from_bytes_little_flip
        by (rewrite to_bytes_little_length; lia).
      rewrite !from_to_bytes_little by assumption.
      now replace (k - 32 - 32)%nat with (k - 64)%nat by lia.
Qed.

Lemma corrupt_neq (k : nat) (x y z : Z) : corrupt k (x, y, z) <> (x, y, z).
Proof.
  unfold corrupt.
  destruct (k <? 32)%nat; [|destruct (k <? 64)%nat];
    intros H; injection H as H; now apply lxor_pow2_neq in H.
Qed.

(** [main] on the marker followed by any twelve bytes. *)
Lemma main_one_packet (w : bytes) :
  List.length w = 12%nat ->
  trace (main (marker_bytes ++ w))
  = [Seek 0 marker_bytes true; Payload 4 w;
     Log packet_ref (u32_at w 0) (u32_at w 4) (u32_at w 8)].
Proof.
  intros Hl. apply main_trace. now apply (framing_one_packet packet_ref 0).
Qed.

(** C9 (no checksum).  Take any packet of the sender, for [(x, y, z)], and
    flip any one of the 96 bits of its payload (bits 32 to 127 of the
    packet).  [main] still syncs, [deserialize] succeeds and exactly one
    record is reported: [(x, y, z)] with that one bit flipped in the field
    the bit belongs to, which differs from [(x, y, z)].  More generally the
    marker followed by any twelve bytes is decoded and reported: no payload
    window is rejected. *)
Theorem corrupted_payload_is_reported (x y z : Z) (pkt : bytes) (k : nat) :
  serialize 0xdeadbeef x y z = Ok pkt ->
  (k < 96)%nat ->
  (exists obj : Packet.t,
      Packet.deserialize (the_packet 0 0 0) (skipn 4 (flip_bit (32 + k) pkt))
      = Ok obj)
  /\ reports (trace (main (flip_bit (32 + k) pkt))) = [corrupt k (x, y, z)]
  /\ corrupt k (x, y, z) <> (x, y, z)
  /\ status (main (flip_bit (32 + k) pkt)) = Blocked
  /\ (forall w : bytes,
         List.length w = 12%nat ->
         reports (trace (main (marker_bytes ++ w))) = [payload_fields w]).
Proof.
  intros Hpkt Hk.
  apply serialize_inv in Hpkt as (Hx & Hy & Hz & ->).
  assert (Hflip : flip_bit (32 + k) (marker_bytes ++ payload_of x y z)
                  = marker_bytes ++ flip_bit k (payload_of x y z)).
  { rewrite flip_bit_app. change (8 * List.length marker_bytes)%nat with 32%nat.
    destruct (Nat.ltb_spec (32 + k) 32); [lia|].
    now replace (32 + k - 32)%nat with k by lia. }
  assert (Hl : List.length (flip_bit k (payload_of x y z)) = 12%nat)
    by now rewrite flip_bit_length.
  rewrite Hflip.
  change (skipn 4 (marker_bytes ++ ?w)) with w.
  split; [|split; [|split; [|split]]].
  - eexists. now apply deserialize_payload.
  - rewrite main_one_packet by assumption.
    cbn [reports flat_map app].
    now rewrite <- (payload_fields_flip x y z k).
  - apply corrupt_neq.
  - apply main_completes.
  - intros w Hw. now rewrite main_one_packet.
Qed.

(** Bit 0 of [x] and the top bit of [z] of the example packet. *)
Lemma corrupted_payload_is_reported_witness :
  serialize 0xdeadbeef 0xaa 0xbb 0xcc = Ok (marker_bytes ++ ex_payload)
  /\ (95 < 96)%nat
  /\ reports (trace (main (flip_bit (32 + 95) (marker_bytes ++ ex_payload))))
     = [(0xaa, 0xbb, 0x800000cc)].
Proof.
  split; [reflexivity|]. split; [lia|].
  exact (proj1 (proj2 (corrupted_payload_is_reported 0xaa 0xbb 0xcc
                         (marker_bytes ++ ex_payload) 95 eq_refl
                         ltac:(lia)))).
Defined.

(** ** Where the loop reads *)

Lemma skipn_past (a b : bytes) (n m : nat) :
  List.length a = n -> skipn (n + m) (a ++ b) = skipn m b.
Proof.
  intros <-. rewrite skipn_app.
  rewrite skipn_all2 by lia.
  now replace (List.length a + m - List.length a)%nat with m by lia.
Qed.

Lemma firstn_window (a b : bytes) (n : nat) :
  List.length a = n -> firstn n (a ++ b) = a.
Proof.
  intros <-. rewrite firstn_app, Nat.sub_diag, firstn_all, firstn_O.
  apply app_nil_r.
Qed.

Section framing_facts.

Variable packet : loc.

(** The reads of a run are consecutive pieces of the stream: no byte is
    read twice and none is skipped. *)
Lemma framing_windows (c : nat) (s : bytes) (tr : list event) :
  framing packet c s tr ->
  exists rest, s = concat (windows tr) ++ rest.
Proof.
  induction 1 as [c s Hs | c w rest tr Hl Hw _ [r IH] | c rest Hl
                 | c w rest tr Hl _ [r IH]].
  - now exists s.
  - exists r.
    change (windows (Seek c w false :: tr)) with (w :: windows tr).
    cbn [concat]. rewrite <- app_assoc. now f_equal.
  - now exists rest.
  - exists r.
    change (windows (Seek c marker_bytes true :: Payload (c + 4) w
                       :: Log packet (u32_at w 0) (u32_at w 4) (u32_at w 8)
                       :: tr))
      with (marker_bytes :: w :: windows tr).
    cbn [concat]. rewrite <- !app_assoc. now do 2 f_equal.
Qed.


(** A DECODING read comes right after a SEEKING read that found the
    marker, and returns the twelve bytes after it. *)
Lemma framing_payload (c : nat) (s : bytes) (tr : list event) :
  framing packet c s tr ->
  forall off w,
    In (Payload off w) tr ->
    exists j : nat,
      off = (c + 4 * j + 4)%nat
      /\ firstn 4 (skipn (4 * j) s) = marker_bytes
      /\ w = firstn 12 (skipn (4 * j + 4) s)
      /\ List.length w = 12%nat.
Proof.
  induction 1 as [c s Hs | c w rest tr Hl Hw _ IH | c rest Hl
                 | c w rest tr Hl _ IH]; intros off v Hin.
  - destruct Hin.
  - destruct Hin as [E | Hin]; [discriminate E|].
    destruct (IH _ _ Hin) as (j & -> & Hm & -> & Hv).
    exists (S j). split; [lia|].
    replace (4 * S j)%nat with (4 + 4 * j)%nat by lia.
    rewrite <- Nat.add_assoc, !skipn_past by assumption.
    now repeat split.
  - destruct Hin as [E | []]. discriminate E.
  - destruct Hin as [E | [E | [E | Hin]]]; try discriminate E.
    + injection E as <- <-. exists 0%nat.
      split; [lia|]. cbn [Nat.mul Nat.add].
      split; [reflexivity|].
      change (skipn 4 (marker_bytes ++ w ++ rest)) with (w ++ rest).
      rewrite firstn_window by assumption. now split.
    + destruct (IH _ _ Hin) as (j & -> & Hm & -> & Hv).
      exists (4 + j)%nat. split; [lia|].
      replace (4 * (4 + j) + 4)%nat with (4 + (12 + (4 * j + 4)))%nat by lia.
      replace (4 * (4 + j))%nat with (4 + (12 + 4 * j))%nat by lia.
      rewrite !(skipn_past marker_bytes) by reflexivity.
      rewrite !skipn_past by assumption.
      now repeat split.
Qed.

(** A report is made on the object [packet], from a payload that was
    read. *)
Lemma framing_log (c : nat) (s : bytes) (tr : list event) :
  framing packet c s tr ->
  forall l x y z,
    In (Log l x y z) tr ->
    l = packet
    /\ exists off w, In (Payload off w) tr /\ (x, y, z) = payload_fields w.
Proof.
  induction 1 as [c s Hs | c w rest tr Hl Hw _ IH | c rest Hl
                 | c w rest tr Hl _ IH]; intros l x y z Hin.
  - destruct Hin.
  - destruct Hin as [E | Hin]; [discriminate E|].
    destruct (IH _ _ _ _ Hin) as (-> & off & v & Hp & Hv).
    split; [reflexivity|]. exists off, v. split; [now right | assumption].
  - destruct Hin as [E | []]. discriminate E.
  - destruct Hin as [E | [E | [E | Hin]]]; try discriminate E.
    + injection E as <- <- <- <-. split; [reflexivity|].
      exists (c + 4)%nat, w. split; [right; now left | reflexivity].
    + destruct (IH _ _ _ _ Hin) as (-> & off & v & Hp & Hv).
      split; [reflexivity|]. exists off, v.
      split; [now do 3 right | assumption].
Qed.

End framing_facts.

Lemma reports_none (tr : list event) :
  (forall l x y z, ~ In (Log l x y z) tr) -> reports tr = [].
Proof.
  induction tr as [|e tr IH]; intros H; [reflexivity|].
  destruct e as [off w hit | off w | l x y z].
  - cbn. apply IH. intros l x y z Hin. apply (H l x y z). now right.
  - cbn. apply IH. intros l x y z Hin. apply (H l x y z). now right.
  - exfalso. apply (H l x y z). now left.
Qed.

Lemma reports_cons (e : event) (tr : list event) :
  reports (e :: tr) = reports [e] ++ reports tr.
Proof. unfold reports. cbn [flat_map]. now rewrite app_nil_r. Qed.

Lemma reports_seek (off : nat) (w : bytes) (hit : bool) (tr : list event) :
  reports (Seek off w hit :: tr) = reports tr.
Proof. reflexivity. Qed.

Lemma reports_accept (c off : nat) (m w : bytes) (l : loc) (x y z : Z)
    (tr : list event) :
  reports (Seek c m true :: Payload off w :: Log l x y z :: tr)
  = (x, y, z) :: reports tr.
Proof. reflexivity. Qed.

Lemma reports_shift (d : nat) (tr : list event) :
  reports (map (shift d) tr) = reports tr.
Proof.
  induction tr as [|e tr IH]; [reflexivity|].
  cbn [map]. rewrite (reports_cons (shift d e)), (reports_cons e), IH.
  now destruct e.
Qed.

(** A run does not depend on where in the stream it starts, offsets
    apart. *)
Lemma framing_shift (packet : loc) (d c : nat) (s : bytes) (tr : list event) :
  framing packet c s tr -> framing packet (d + c) s (map (shift d) tr).
Proof.
  induction 1 as [c s Hs | c w rest tr Hl Hw _ IH | c rest Hl
                 | c w rest tr Hl _ IH]; cbn [map shift].
  - now constructor.
  - constructor; try assumption. now rewrite <- Nat.add_assoc.
  - now constructor.
  - rewrite (Nat.add_assoc d c 4). constructor; [assumption|].
    now rewrite <- !Nat.add_assoc in *.
Qed.

Lemma main_trace_reject (w rest : bytes) :
  non_matching w ->
  trace (main (w ++ rest))
  = Seek 0 w false :: map (shift 4) (trace (main rest)).
Proof.
  intros [Hl Hw]. apply main_trace.
  apply framing_reject; [assumption ..|].
  apply (framing_shift packet_ref 4 0), main_framing.
Qed.

Lemma main_trace_accept (w rest : bytes) :
  List.length w = 12%nat ->
  trace (main (marker_bytes ++ w ++ rest))
  = Seek 0 marker_bytes true :: Payload 4 w
      :: Log packet_ref (u32_at w 0) (u32_at w 4) (u32_at w 8)
      :: map (shift 16) (trace (main rest)).
Proof.
  intros Hl. apply main_trace.
  apply (framing_accept packet_ref 0); [assumption|].
  apply (framing_shift packet_ref 16 0), main_framing.
Qed.

(** The bytes read by a run, the bytes left over and the reports made. *)
Lemma framing_accounting (packet : loc) (c : nat) (s : bytes)
    (tr : list event) :
  framing packet c s tr ->
  exists rest : bytes,
    s = concat (windows tr) ++ rest
    /\ (List.length rest < 12)%nat
    /\ (16 * List.length (reports tr) <= List.length (concat (windows tr)))%nat.
Proof.
  induction 1 as [c s Hs | c w rest tr Hl Hw _ (r & E & Hr & Hn) | c rest Hl
                 | c w rest tr Hl _ (r & E & Hr & Hn)].
  - exists s. cbn. repeat split; lia.
  - exists r.
    change (windows (Seek c w false :: tr)) with (w :: windows tr).
    rewrite reports_seek. cbn [concat].
    rewrite <- app_assoc, <- E, length_app. repeat split; [assumption | lia].
  - exists rest. cbn. repeat split; [assumption | lia].
  - exists r.
    change (windows (Seek c marker_bytes true :: Payload (c + 4) w
                       :: Log packet (u32_at w 0) (u32_at w 4) (u32_at w 8)
                       :: tr))
      with (marker_bytes :: w :: windows tr).
    change (reports (Seek c marker_bytes true :: Payload (c + 4) w
                       :: Log packet (u32_at w 0) (u32_at w 4) (u32_at w 8)
                       :: tr))
      with ((u32_at w 0, u32_at w 4, u32_at w 8) :: reports tr).
    cbn [concat List.length].
    rewrite <- !app_assoc, <- E, !length_app, Hl.
    cbn [List.length marker_bytes]. repeat split; [assumption | lia].
Qed.




(** ** The packet object *)

Lemma framing_reports (packet : loc) (c : nat) (s : bytes) (tr : list event) :
  framing packet c s tr ->
  reports tr = map payload_fields (payloads tr).
Proof.
  induction 1 as [c s Hs | c w rest tr Hl Hw _ IH | c rest Hl
                 | c w rest tr Hl _ IH]; try reflexivity.
  - exact IH.
  - cbn [reports payloads flat_map app map]. f_equal. exact IH.
Qed.

Lemma last_cons {A : Type} (a d : A) (l : list A) :
  List.last (a :: l) d = List.last l a.
Proof.
  revert a d. induction l as [|b l IH]; intros a d; [reflexivity|].
  change (List.last (b :: l) d = List.last (b :: l) a). now rewrite !IH.
Qed.

(** The heap after a run: the one object, holding the record reported last
    (or what it held before, when nothing was reported). *)
Lemma main_loop_final (fuel : nat) :
  forall (packet : loc) (h : heap) (c : nat) (s : bytes) (v0 : Z * Z * Z),
    h !! packet = Some (packet_of v0) ->
    (List.length s < fuel)%nat ->
    let r := main_loop fuel packet h {| pending := s; consumed := c |} in
    final r = <[packet := packet_of (List.last (reports (trace r)) v0)]> h.
Proof.
  induction fuel as [|fuel IH]; intros packet h c s v0 Hp Hfuel; [lia|].
  assert (Hobj : holds_packet packet h).
  { destruct v0 as [[x0 y0] z0]. now exists x0, y0, z0. }
  destruct (stream_cases s)
    as [Hs | [(w & rest & -> & Hl & Hw) | [(rest & -> & Hl)
                                          | (w & rest & -> & Hl)]]].
  - rewrite main_loop_wait by assumption. cbn.
    symmetry. now apply insert_id.
  - rewrite main_loop_reject by assumption.
    rewrite length_app in Hfuel.
    exact (IH packet h (c + 4)%nat rest v0 Hp ltac:(lia)).
  - rewrite main_loop_starved by assumption. cbn.
    symmetry. now apply insert_id.
  - rewrite main_loop_accept by assumption.
    rewrite !length_app in Hfuel.
    pose proof (IH packet (<[packet := packet_of (payload_fields w)]> h)
                  (c + 4 + 12)%nat rest (payload_fields w)
                  (lookup_insert_eq _ _ _) ltac:(lia)) as Hfin.
    cbn [emit trace final reports flat_map app] in *.
    rewrite Hfin, insert_insert_eq.
    change (u32_at w 0, u32_at w 4, u32_at w 8) with (payload_fields w).
    now rewrite last_cons.
Qed.

(** C7 as stated fails: on two packets in a row both reports are made on the
    same object, the one created before the loop, and that object holds the
    marker component next to [x], [y] and [z]. *)
Lemma reports_share_one_object :
  ~ fresh_object_per_report two_packets
  /\ report_objects (trace (main two_packets)) = [packet_ref; packet_ref]
  /\ final (main two_packets) !! packet_ref
     = Some (Packet.mk (Marker.mk 0xdeadbeef "<I" 4) "<III" 12 1 2 3).
Proof.
  split; [|split; reflexivity].
  unfold fresh_object_per_report.
  change (report_objects (trace (main two_packets)))
    with [packet_ref; packet_ref].
  intros H. apply NoDup_cons in H as [H _]. apply H. now left.
Qed.

(** C7, amended.  [main] creates one packet object before the loop and every
    report is made on that object.  The object holds the marker component,
    the format and the length together with [x], [y] and [z], and no bytes
    of the stream; an iteration that decodes overwrites its [x], [y] and
    [z], so that after the run it holds the record reported last (zeros
    when nothing was reported).  The values of each report are those of the
    payload read in the same iteration. *)
Theorem reports_come_from_the_one_packet (stream : bytes) :
  (forall l x y z, In (Log l x y z) (trace (main stream)) -> l = packet_ref)
  /\ final (main stream)
     = {[ packet_ref :=
            Packet.mk (Marker.mk 0xdeadbeef "<I" 4) "<III" 12
              (List.last (reports (trace (main stream))) (0, 0, 0)).1.1
              (List.last (reports (trace (main stream))) (0, 0, 0)).1.2
              (List.last (reports (trace (main stream))) (0, 0, 0)).2 ]}
  /\ reports (trace (main stream))
     = map payload_fields (payloads (trace (main stream))).
Proof.
  pose proof (main_framing stream) as Hfr.
  split; [|split].
  - intros l x y z Hin.
    exact (proj1 (framing_log _ _ _ _ Hfr _ _ _ _ Hin)).
  - rewrite main_unfold.
    rewrite (main_loop_final _ packet_ref _ 0%nat stream (0, 0, 0))
      by (apply lookup_singleton_eq || lia).
    rewrite <- main_unfold.
    destruct (List.last (reports (trace (main stream))) (0, 0, 0)) as [[x y] z].
    apply insert_singleton_eq.
  - exact (framing_reports _ _ _ _ Hfr).
Qed.

(** * Further properties of the classes *)

Lemma Marker_init_inv (m : Z) (format : string) (mk : Marker.t) :
  Marker.init m format = Ok mk ->
  exists ws, struct.parse format = Ok ws /\ mk = Marker.mk m format (list_sum ws).
Proof.
  unfold Marker.init, struct.calcsize.
  destruct (struct.parse format) as [ws|e]; [|discriminate].
  cbn. intros H. injection H as <-. now exists ws.
Qed.

Lemma from_bytes_little_firstn_4 (w : bytes) :
  (4 <= List.length w)%nat -> from_bytes_little (firstn 4 w) = u32_at w 0.
Proof.
  intros H.
  do 4 (destruct w as [|? w]; [cbn in H; lia|]).
  cbn [firstn]. now rewrite from_bytes_little_4.
Qed.

(** X1.  A marker keeps the size of its format: for every marker that the
    constructor builds, [sync] raises [struct.error] exactly on the windows
    whose length is not the [length] attribute of the marker. *)
Theorem sync_size_error (m : Z) (format : string) (mk : Marker.t) (w : bytes) :
  Marker.init m format = Ok mk ->
  (Marker.sync mk w = Raise struct_error
   <-> List.length w <> Marker.length mk).
Proof.
  intros Hinit. apply Marker_init_inv in Hinit as (ws & Hp & ->).
  unfold Marker.sync, struct.unpack. cbn [Marker.format Marker.length].
  rewrite Hp. cbn [bind].
  destruct (Nat.eqb_spec (List.length w) (list_sum ws)) as [E|E].
  - cbn [bind]. split; [|contradiction].
    destruct (struct.fields ws w) as [|r rs]; [discriminate|].
    cbn [Marker.marker]. destruct (m =? r); discriminate.
  - split; [now intros _ | reflexivity].
Qed.

Lemma sync_size_error_witness :
  Marker.init 0xdeadbeef "<I" = Ok the_marker
  /\ (Marker.sync the_marker [Byte.xef; Byte.xbe; Byte.xad] = Raise struct_error
      <-> List.length [Byte.xef; Byte.xbe; Byte.xad] <> Marker.length the_marker).
Proof.
  split; [reflexivity|].
  exact (sync_size_error 0xdeadbeef "<I" the_marker
           [Byte.xef; Byte.xbe; Byte.xad] eq_refl).
Defined.

Lemma code_widths_u32 (n : nat) :
  struct.code_widths (string_of_list_ascii (repeat "I"%char n))
  = Ok (repeat 4%nat n).
Proof.
  induction n as [|n IH]; [reflexivity|].
  cbn [repeat string_of_list_ascii struct.code_widths].
  rewrite IH. reflexivity.
Qed.

Lemma list_sum_repeat_4 (n : nat) : list_sum (repeat 4%nat n) = (4 * n)%nat.
Proof.
  induction n as [|n IH]; [reflexivity|].
  change (list_sum (repeat 4%nat (S n)))
    with (4 + list_sum (repeat 4%nat n))%nat.
  lia.
Qed.

(** X2.  [sync] compares the first field only.  Take a marker whose format
    is ['<'] followed by [n] codes ['I'].  The constructor gives it the
    length [4 * n].  On a window of that length, when [n] is at least 1
    [sync] answers whether the first four bytes of the window hold the
    marker value (little-endian), whatever follows them; when [n] is 0 the
    call raises [IndexError]. *)
Theorem sync_first_field (m : Z) (n : nat) (w : bytes) :
  List.length w = (4 * n)%nat ->
  Marker.init m (u32_format n) = Ok (Marker.mk m (u32_format n) (4 * n))
  /\ Marker.sync (Marker.mk m (u32_format n) (4 * n)) w
     = match n with
       | O => Raise IndexError
       | S _ => Ok (m =? u32_at w 0)
       end.
Proof.
  intros Hl.
  assert (Hp : struct.parse (u32_format n) = Ok (repeat 4%nat n))
    by apply code_widths_u32.
  split.
  - unfold Marker.init, struct.calcsize. rewrite Hp. cbn [bind].
    now rewrite list_sum_repeat_4.
  - unfold Marker.sync, struct.unpack. cbn [Marker.format Marker.marker].
    rewrite Hp. cbn [bind].
    rewrite list_sum_repeat_4, Hl, Nat.eqb_refl. cbn [bind].
    destruct n as [|n]; [reflexivity|].
    cbn [repeat struct.fields].
    rewrite from_bytes_little_firstn_4 by lia.
    now destruct (m =? u32_at w 0).
Qed.

(** A marker of two fields: only the first is compared. *)
Lemma sync_first_field_witness :
  List.length (marker_bytes ++ [Byte.x01; Byte.x02; Byte.x03; Byte.x04])
  = (4 * 2)%nat
  /\ Marker.init 0xdeadbeef "<II" = Ok (Marker.mk 0xdeadbeef "<II" 8)
  /\ Marker.sync (Marker.mk 0xdeadbeef "<II" 8)
       (marker_bytes ++ [Byte.x01; Byte.x02; Byte.x03; Byte.x04]) = Ok true.
Proof.
  split; [reflexivity|].
  exact (sync_first_field 0xdeadbeef 2
           (marker_bytes ++ [Byte.x01; Byte.x02; Byte.x03; Byte.x04])
           eq_refl).
Defined.

(** * Further properties of the sender *)

Lemma payload_of_fields (w : bytes) :
  List.length w = 12%nat ->
  let '(x, y, z) := payload_fields w in
  u32 x /\ u32 y /\ u32 z /\ payload_of x y z = w.
Proof.
  intros Hl.
  do 13 (destruct w as [|? w]; try discriminate Hl).
  unfold payload_fields, u32_at, payload_of, u32. cbn [nth Nat.add].
  repeat split; try apply u32_le_range.
  rewrite <- !from_bytes_little_4.
  now rewrite !(to_from_bytes_little [_; _; _; _]).
Qed.

(** X3.  Decoding and sending again gives back the bytes: when
    [deserialize] has stored a window of twelve bytes in a packet, the
    sender's [serialize] of the stored [x], [y] and [z] under the marker
    [0xdeadbeef] is the marker followed by that window. *)
Theorem deserialize_then_serialize (obj obj' : Packet.t) (w : bytes) :
  Packet.format obj = "<III"%string ->
  Packet.deserialize obj w = Ok obj' ->
  serialize 0xdeadbeef (Packet.x obj') (Packet.y obj') (Packet.z obj')
  = Ok (marker_bytes ++ w).
Proof.
  intros Hf Hd. destruct obj as [m f n x0 y0 z0]. cbn in Hf. subst f.
  destruct (Nat.eq_dec (List.length w) 12%nat) as [Hl|Hl].
  - pose proof (payload_of_fields w Hl) as Hw.
    do 13 (destruct w as [|? w]; try discriminate Hl).
    rewrite deserialize_window in Hd. injection Hd as <-.
    cbn [Packet.x Packet.y Packet.z].
    unfold payload_fields, u32_at in Hw. cbn [nth Nat.add] in Hw.
    destruct Hw as (Hx & Hy & Hz & Hw).
    rewrite serialize_ok by assumption. now rewrite Hw.
  - rewrite deserialize_wrong_size in Hd by (assumption || reflexivity).
    discriminate Hd.
Qed.

Lemma deserialize_then_serialize_witness :
  Packet.format (the_packet 0 0 0) = "<III"%string
  /\ Packet.deserialize (the_packet 0 0 0) other_payload = Ok (the_packet 1 2 3)
  /\ serialize 0xdeadbeef 1 2 3 = Ok (marker_bytes ++ other_payload).
Proof.
  split; [reflexivity|]. split; [reflexivity|].
  exact (deserialize_then_serialize (the_packet 0 0 0) (the_packet 1 2 3)
           other_payload eq_refl eq_refl).
Defined.

Lemma pack_fields_u32 (vs : list Z) :
  Forall u32 vs ->
  struct.pack_fields (repeat 4%nat (List.length vs)) vs
  = Ok (concat (map (to_bytes_little 4) vs)).
Proof.
  induction 1 as [|v vs Hv _ IH]; [reflexivity|].
  cbn [List.length repeat struct.pack_fields map concat].
  rewrite (u32_check v Hv), IH. reflexivity.
Qed.

(** The packet of values that fit. *)
Lemma serialize_in_range (m x y z : Z) :
  u32 m -> u32 x -> u32 y -> u32 z ->
  serialize m x y z
  = Ok (to_bytes_little 4 m ++ to_bytes_little 4 x
          ++ to_bytes_little 4 y ++ to_bytes_little 4 z).
Proof.
  intros Hm Hx Hy Hz.
  change (serialize m x y z)
    with (struct.pack_fields (repeat 4%nat (List.length [m; x; y; z]))
            [m; x; y; z]).
  rewrite pack_fields_u32
    by (repeat (apply List.Forall_cons; [assumption|]); apply List.Forall_nil).
  cbn [map concat]. now rewrite app_nil_r.
Qed.

(** X5.  On values that fit 32 bits the sender's encoding is injective: two
    calls of [serialize] with a marker value and a record in [0, 2^32) that
    give the same packet were given the same marker value and the same
    record. *)
Theorem serialize_injective (m x y z m' x' y' z' : Z) :
  u32 m -> u32 x -> u32 y -> u32 z ->
  u32 m' -> u32 x' -> u32 y' -> u32 z' ->
  serialize m x y z = serialize m' x' y' z' ->
  m = m' /\ x = x' /\ y = y' /\ z = z'.
Proof.
  intros Hm Hx Hy Hz Hm' Hx' Hy' Hz' E.
  rewrite !serialize_in_range in E by assumption.
  assert (Ok_inj : forall a b : bytes, Ok a = Ok b -> a = b)
    by (intros a b Hab; congruence).
  apply Ok_inj in E.
  apply (window_split 4) in E as [Em E]; try apply to_bytes_little_length.
  apply (window_split 4) in E as [Ex E]; try apply to_bytes_little_length.
  apply (window_split 4) in E as [Ey Ez]; try apply to_bytes_little_length.
  unfold u32 in *.
  repeat split.
  - rewrite <- (from_to_bytes_little 4 m), <- (from_to_bytes_little 4 m')
      by assumption. now rewrite Em.
  - rewrite <- (from_to_bytes_little 4 x), <- (from_to_bytes_little 4 x')
      by assumption. now rewrite Ex.
  - rewrite <- (from_to_bytes_little 4 y), <- (from_to_bytes_little 4 y')
      by assumption. now rewrite Ey.
  - rewrite <- (from_to_bytes_little 4 z), <- (from_to_bytes_little 4 z')
      by assumption. now rewrite Ez.
Qed.

Lemma serialize_injective_witness :
  (u32 0xdeadbeef /\ u32 0xaa /\ u32 0xbb /\ u32 0xcc)
  /\ (serialize 0xdeadbeef 0xaa 0xbb 0xcc = serialize 0xdeadbeef 0xaa 0xbb 0xcc ->
      0xdeadbeef = 0xdeadbeef /\ 0xaa = 0xaa /\ 0xbb = 0xbb /\ 0xcc = 0xcc).
Proof.
  assert (Hm : u32 0xdeadbeef) by (unfold u32; lia).
  assert (Ha : u32 0xaa) by (unfold u32; lia).
  assert (Hb : u32 0xbb) by (unfold u32; lia).
  assert (Hc : u32 0xcc) by (unfold u32; lia).
  split; [now repeat split|].
  exact (serialize_injective 0xdeadbeef 0xaa 0xbb 0xcc 0xdeadbeef 0xaa 0xbb 0xcc
           Hm Ha Hb Hc Hm Ha Hb Hc).
Defined.

(** * Further properties of the loop *)

(** X6.  The loop starts afresh after every window.  After a rejected
    window [main] goes on as [main] on the rest of the stream does, four
    bytes further on; after a marker and its payload it reports the payload
    and goes on as [main] on the rest does, sixteen bytes further on; it
    waits when fewer than four bytes, or the marker and fewer than twelve
    bytes, are left.  Nothing but the position in the stream passes from
    one iteration to the next. *)
Theorem main_starts_afresh :
  (forall s : bytes,
      (List.length s < 4)%nat -> trace (main s) = [])
  /\ (forall w rest : bytes,
         List.length w = 4%nat -> w <> marker_bytes ->
         trace (main (w ++ rest))
         = Seek 0 w false :: map (shift 4) (trace (main rest)))
  /\ (forall rest : bytes,
         (List.length rest < 12)%nat ->
         trace (main (marker_bytes ++ rest)) = [Seek 0 marker_bytes true])
  /\ (forall w rest : bytes,
         List.length w = 12%nat ->
         trace (main (marker_bytes ++ w ++ rest))
         = Seek 0 marker_bytes true :: Payload 4 w
             :: Log packet_ref (u32_at w 0) (u32_at w 4) (u32_at w 8)
             :: map (shift 16) (trace (main rest))).
Proof.
  split; [|split; [|split]].
  - intros s Hs. apply main_trace. now constructor.
  - intros w rest Hl Hw. now apply main_trace_reject.
  - intros rest Hl. apply main_trace. now constructor.
  - exact main_trace_accept.
Qed.

Lemma reports_main_rejects (ws : list bytes) (rest : bytes) :
  Forall non_matching ws ->
  reports (trace (main (concat ws ++ rest))) = reports (trace (main rest)).
Proof.
  induction 1 as [|w ws Hw _ IH]; [reflexivity|].
  cbn [concat]. rewrite <- app_assoc, main_trace_reject by assumption.
  rewrite reports_seek, reports_shift. exact IH.
Qed.

Lemma reports_main_packets (rs : list (Z * Z * Z)) (pkts : list bytes)
    (rest : bytes) :
  Forall2 sent rs pkts ->
  reports (trace (main (concat pkts ++ rest)))
  = rs ++ reports (trace (main rest)).
Proof.
  induction 1 as [|[[x y] z] pkt rs pkts Hs _ IH]; [reflexivity|].
  apply serialize_inv in Hs as (Hx & Hy & Hz & ->).
  cbn [concat]. rewrite <- !app_assoc.
  rewrite main_trace_accept by apply payload_of_length.
  rewrite reports_accept, reports_shift, IH.
  change (u32_at (payload_of x y z) 0, u32_at (payload_of x y z) 4,
          u32_at (payload_of x y z) 8)
    with (payload_fields (payload_of x y z)).
  now rewrite payload_fields_of.
Qed.

(** Fewer than sixteen bytes never make a report. *)
Lemma short_stream_unreported (s : bytes) :
  (List.length s < 16)%nat -> reports (trace (main s)) = [].
Proof.
  intros Hs. apply reports_none. intros l x y z Hin.
  pose proof (main_framing s) as Hfr.
  destruct (framing_log _ _ _ _ Hfr _ _ _ _ Hin) as (_ & off & v & Hp & _).
  destruct (framing_payload _ _ _ _ Hfr _ _ Hp) as (j & _ & _ & -> & Hv).
  rewrite length_firstn, length_skipn in Hv. lia.
Qed.

(** X7.  Packets are reported one by one, in the order sent.  After any
    number of four-byte windows that are not the marker, the packets the
    sender makes for the records [rs], back to back, followed by fewer than
    sixteen further bytes, make [main] report exactly the records [rs], in
    order; an incomplete packet at the end is not reported. *)
Theorem packets_reported_in_order (ws : list bytes) (rs : list (Z * Z * Z))
    (pkts : list bytes) (tail : bytes) :
  Forall non_matching ws ->
  Forall2 sent rs pkts ->
  (List.length tail < 16)%nat ->
  reports (trace (main (concat ws ++ concat pkts ++ tail))) = rs.
Proof.
  intros Hws Hpk Ht.
  rewrite reports_main_rejects by assumption.
  rewrite (reports_main_packets rs) by assumption.
  rewrite short_stream_unreported by assumption.
  apply app_nil_r.
Qed.

Lemma packets_reported_in_order_witness :
  Forall non_matching [[Byte.x00; Byte.x00; Byte.x00; Byte.x00]]
  /\ Forall2 sent [(0xaa, 0xbb, 0xcc); (1, 2, 3)]
       [marker_bytes ++ ex_payload; marker_bytes ++ other_payload]
  /\ (List.length (marker_bytes ++ [Byte.x07]) < 16)%nat
  /\ reports
       (trace (main (concat [[Byte.x00; Byte.x00; Byte.x00; Byte.x00]]
                       ++ concat [marker_bytes ++ ex_payload;
                                  marker_bytes ++ other_payload]
                       ++ marker_bytes ++ [Byte.x07])))
     = [(0xaa, 0xbb, 0xcc); (1, 2, 3)].
Proof.
  assert (Hws : Forall non_matching [[Byte.x00; Byte.x00; Byte.x00; Byte.x00]]).
  { apply List.Forall_cons; [split; [reflexivity | discriminate]|].
    apply List.Forall_nil. }
  assert (Hpk : Forall2 sent [(0xaa, 0xbb, 0xcc); (1, 2, 3)]
                  [marker_bytes ++ ex_payload; marker_bytes ++ other_payload]).
  { apply List.Forall2_cons; [reflexivity|].
    apply List.Forall2_cons; [reflexivity|]. apply List.Forall2_nil. }
  assert (Ht : (List.length (marker_bytes ++ [Byte.x07]) < 16)%nat)
    by (cbn; lia).
  split; [exact Hws|]. split; [exact Hpk|]. split; [exact Ht|].
  exact (packets_reported_in_order _ _ _ _ Hws Hpk Ht).
Defined.

(** What a run has gone through stays when more bytes arrive. *)
Lemma framing_extend (packet : loc) (c : nat) (s : bytes) (tr : list event) :
  framing packet c s tr ->
  forall (t : bytes) (tr2 : list event),
    framing packet c (s ++ t) tr2 -> exists tr', tr2 = tr ++ tr'.
Proof.
  induction 1 as [c s Hs | c w rest tr Hl Hw _ IH | c rest Hl
                 | c w rest tr Hl _ IH]; intros t tr2 H2.
  - now exists tr2.
  - rewrite <- app_assoc in H2.
    inversion H2; subst; same_windows; try too_short;
      try (exfalso; match goal with
                    | H : _ <> marker_bytes |- _ => apply H; reflexivity
                    end).
    match goal with
    | H : framing _ _ (rest ++ t) _ |- _ => destruct (IH _ _ H) as [tr' ->]
    end.
    now exists tr'.
  - change ((marker_bytes ++ rest) ++ t) with (marker_bytes ++ rest ++ t) in H2.
    inversion H2; subst; same_windows; try too_short;
      try (exfalso; match goal with
                    | H : _ <> marker_bytes |- _ => apply H; reflexivity
                    end).
    + now exists [].
    + eexists. cbn [app]. reflexivity.
  - change ((marker_bytes ++ w ++ rest) ++ t)
      with (marker_bytes ++ (w ++ rest) ++ t) in H2.
    rewrite <- app_assoc in H2.
    inversion H2; subst; same_windows; try too_short;
      try (exfalso; match goal with
                    | H : _ <> marker_bytes |- _ => apply H; reflexivity
                    end).
    match goal with
    | H : framing _ _ (rest ++ t) _ |- _ => destruct (IH _ _ H) as [tr' ->]
    end.
    now exists tr'.
Qed.

Lemma reports_app (tr1 tr2 : list event) :
  reports (tr1 ++ tr2) = reports tr1 ++ reports tr2.
Proof. unfold reports. apply flat_map_app. Qed.

(** X8.  What [main] has done does not depend on the bytes that arrive
    later: the trace on a stream is a prefix of the trace on any longer
    stream, and so are the records reported.  Nothing is reported ahead of
    its bytes and no report is taken back. *)
Theorem trace_grows_with_stream (s t : bytes) :
  exists tr' : list event,
    trace (main (s ++ t)) = trace (main s) ++ tr'
    /\ reports (trace (main (s ++ t)))
       = reports (trace (main s)) ++ reports tr'.
Proof.
  destruct (framing_extend _ _ _ _ (main_framing s) t _
              (main_framing (s ++ t))) as [tr' E].
  exists tr'. split; [exact E|]. now rewrite E, reports_app.
Qed.

(** X9.  [main] never raises and never leaves the loop: on every stream it
    ends up waiting in a [read].  It has then read the stream from the start
    in consecutive pieces up to fewer than twelve bytes, and it has made at
    most one report for every sixteen bytes it has read. *)
Theorem main_waits_for_bytes (stream : bytes) :
  status (main stream) = Blocked
  /\ exists rest : bytes,
      stream = concat (windows (trace (main stream))) ++ rest
      /\ (List.length rest < 12)%nat
      /\ (16 * List.length (reports (trace (main stream)))
          <= List.length stream - List.length rest)%nat.
Proof.
  split; [apply main_completes|].
  destruct (framing_accounting _ _ _ _ (main_framing stream))
    as (rest & E & Hr & Hn).
  exists rest. split; [exact E|]. split; [exact Hr|].
  rewrite E at 2. rewrite length_app. lia.
Qed.

(** ** A lost byte *)

Lemma to_bytes_one_byte (v : Z) :
  0 <= v < 256 ->
  to_bytes_little 4 v = [byte_of_Z v; Byte.x00; Byte.x00; Byte.x00].
Proof.
  intros Hv. cbn [to_bytes_little].
  rewrite (Z.div_small v 256) by assumption. reflexivity.
Qed.

Lemma one_byte_payload (x y z : Z) :
  one_byte_record (x, y, z) ->
  payload_of x y z
  = [byte_of_Z x; Byte.x00; Byte.x00; Byte.x00;
     byte_of_Z y; Byte.x00; Byte.x00; Byte.x00;
     byte_of_Z z; Byte.x00; Byte.x00; Byte.x00].
Proof.
  intros (Hx & Hy & Hz). unfold payload_of.
  now rewrite !to_bytes_one_byte.
Qed.

Ltac reject_window :=
  match goal with
  | |- framing _ _ (?a :: ?b :: ?c :: ?d :: ?rest) (Seek _ _ false :: _) =>
      change (a :: b :: c :: d :: rest) with ([a; b; c; d] ++ rest);
      apply framing_reject; [reflexivity | discriminate |]
  end.

(** Behind one to three stray bytes, packets of one-byte records are cut
    into windows none of which is the marker, and as many stray bytes are
    left in front of the packets that follow. *)
Lemma framing_lost_sync (packet : loc) (rs : list (Z * Z * Z))
    (pkts : list bytes) :
  Forall2 sent rs pkts ->
  Forall one_byte_record rs ->
  forall (pad : bytes) (c : nat),
    (1 <= List.length pad <= 3)%nat ->
    exists ws : list bytes,
      Forall non_matching ws
      /\ framing packet c (pad ++ concat pkts) (rejected c ws).
Proof.
  induction 1 as [|[[x y] z] pkt rs pkts Hs _ IH]; intros Hsmall pad c Hpad.
  - exists []. split; [constructor|].
    cbn [concat rejected]. rewrite app_nil_r. constructor. lia.
  - apply Forall_cons_iff in Hsmall as [Hr Hsmall].
    apply serialize_inv in Hs as (_ & _ & _ & ->).
    rewrite (one_byte_payload x y z Hr).
    destruct pad as [|p0 [|p1 [|p2 [|p3 pad]]]]; cbn in Hpad; try lia.
    + destruct (IH Hsmall [Byte.x00] (c + 4 + 4 + 4 + 4)%nat ltac:(cbn; lia))
        as (ws & Hws & Hfr).
      exists ([p0; Byte.xef; Byte.xbe; Byte.xad]
                :: [Byte.xde; byte_of_Z x; Byte.x00; Byte.x00]
                :: [Byte.x00; byte_of_Z y; Byte.x00; Byte.x00]
                :: [Byte.x00; byte_of_Z z; Byte.x00; Byte.x00] :: ws).
      split.
      * repeat (apply List.Forall_cons; [split; [reflexivity | discriminate]|]).
        exact Hws.
      * cbn [concat app rejected marker_bytes].
        do 4 reject_window. exact Hfr.
    + destruct (IH Hsmall [Byte.x00; Byte.x00] (c + 4 + 4 + 4 + 4)%nat
                  ltac:(cbn; lia)) as (ws & Hws & Hfr).
      exists ([p0; p1; Byte.xef; Byte.xbe]
                :: [Byte.xad; Byte.xde; byte_of_Z x; Byte.x00]
                :: [Byte.x00; Byte.x00; byte_of_Z y; Byte.x00]
                :: [Byte.x00; Byte.x00; byte_of_Z z; Byte.x00] :: ws).
      split.
      * repeat (apply List.Forall_cons; [split; [reflexivity | discriminate]|]).
        exact Hws.
      * cbn [concat app rejected marker_bytes].
        do 4 reject_window. exact Hfr.
    + destruct (IH Hsmall [Byte.x00; Byte.x00; Byte.x00]
                  (c + 4 + 4 + 4 + 4)%nat ltac:(cbn; lia))
        as (ws & Hws & Hfr).
      exists ([p0; p1; p2; Byte.xef]
                :: [Byte.xbe; Byte.xad; Byte.xde; byte_of_Z x]
                :: [Byte.x00; Byte.x00; Byte.x00; byte_of_Z y]
                :: [Byte.x00; Byte.x00; Byte.x00; byte_of_Z z] :: ws).
      split.
      * repeat (apply List.Forall_cons; [split; [reflexivity | discriminate]|]).
        exact Hws.
      * cbn [concat app rejected marker_bytes].
        do 4 reject_window. exact Hfr.
Qed.

Lemma rejected_no_sync (c : nat) (ws : list bytes) :
  forall off w, ~ In (Seek off w true) (rejected c ws).
Proof.
  revert c. induction ws as [|v ws IH]; intros c off w Hin; [destruct Hin|].
  destruct Hin as [E | Hin]; [discriminate E | exact (IH _ _ _ Hin)].
Qed.

(** X10.  One lost byte is never recovered from.  When one to three stray
    bytes stand in front of any number of packets of the sender whose values
    fit one byte each (as those of the sender in the header do), [main]
    rejects every window it reads: it never syncs and reports none of the
    packets, however many follow. *)
Theorem lost_byte_loses_all_packets (pad : bytes) (rs : list (Z * Z * Z))
    (pkts : list bytes) :
  (1 <= List.length pad <= 3)%nat ->
  Forall one_byte_record rs ->
  Forall2 sent rs pkts ->
  (forall off w, ~ In (Seek off w true) (trace (main (pad ++ concat pkts))))
  /\ reports (trace (main (pad ++ concat pkts))) = [].
Proof.
  intros Hpad Hsmall Hsent.
  destruct (framing_lost_sync packet_ref rs pkts Hsent Hsmall pad 0%nat Hpad)
    as (ws & _ & Hfr).
  rewrite (main_trace _ _ Hfr). split.
  - apply rejected_no_sync.
  - rewrite <- (app_nil_r (rejected 0 ws)). apply reports_rejected.
Qed.

Lemma lost_byte_loses_all_packets_witness :
  (1 <= List.length [Byte.xcc] <= 3)%nat
  /\ Forall one_byte_record [(0xaa, 0xbb, 0xcc); (0xaa, 0xbb, 0xcc)]
  /\ Forall2 sent [(0xaa, 0xbb, 0xcc); (0xaa, 0xbb, 0xcc)]
       [marker_bytes ++ ex_payload; marker_bytes ++ ex_payload]
  /\ reports
       (trace (main ([Byte.xcc]
                       ++ concat [marker_bytes ++ ex_payload;
                                  marker_bytes ++ ex_payload]))) = [].
Proof.
  assert (Hpad : (1 <= List.length [Byte.xcc] <= 3)%nat) by (cbn; lia).
  assert (Hsmall : Forall one_byte_record
                     [(0xaa, 0xbb, 0xcc); (0xaa, 0xbb, 0xcc)]).
  { repeat (apply List.Forall_cons; [cbn; lia|]). apply List.Forall_nil. }
  assert (Hsent : Forall2 sent [(0xaa, 0xbb, 0xcc); (0xaa, 0xbb, 0xcc)]
                    [marker_bytes ++ ex_payload; marker_bytes ++ ex_payload]).
  { repeat (apply List.Forall2_cons; [reflexivity|]). apply List.Forall2_nil. }
  split; [exact Hpad|]. split; [exact Hsmall|]. split; [exact Hsent|].
  exact (proj2 (lost_byte_loses_all_packets _ _ _ Hpad Hsmall Hsent)).
Defined.

(** * Further properties of [log] *)

Lemma string_length_app (a b : string) :
  String.length (a ++ b) = (String.length a + String.length b)%nat.
Proof.
  induction a as [|c a IH]; [reflexivity|].
  change (S (String.length (a ++ b))
          = S (String.length a + String.length b)).
  now rewrite IH.
Qed.

Lemma string_length_zeros (k : nat) :
  String.length (string_of_list_ascii (repeat "0"%char k)) = k.
Proof. induction k as [|k IH]; cbn; [reflexivity | now rewrite IH]. Qed.

Lemma zfill_length (width : nat) (digits : string) :
  (String.length digits <= width)%nat ->
  String.length (Packet.zfill width digits) = width.
Proof.
  intros H. unfold Packet.zfill.
  rewrite string_length_app, string_length_zeros. lia.
Qed.

Lemma zfill_value (width : nat) (digits : string) :
  HexString.Raw.to_N (Packet.zfill width digits) 0
  = HexString.Raw.to_N digits 0.
Proof.
  unfold Packet.zfill.
  induction (width - String.length digits)%nat as [|k IH]; [reflexivity|].
  exact IH.
Qed.

(** A value below [16 ^ n] has at most [n] hexadecimal digits. *)
Lemma of_pos_length (n : nat) :
  forall (p : positive) (rest : string),
    Z.pos p < 16 ^ Z.of_nat n ->
    (String.length (HexString.Raw.of_pos p rest) <= n + String.length rest)%nat.
Proof.
  induction n as [|n IH]; intros p rest Hp.
  - cbn in Hp. lia.
  - rewrite Nat2Z.inj_succ, Z.pow_succ_r in Hp by lia.
    do 4 (try destruct p as [p|p|]);
      cbn [HexString.Raw.of_pos String.length]; try lia;
      (etransitivity; [apply IH; lia | cbn [String.length]; lia]).
Qed.

Lemma format_08x_u32 (v : Z) :
  u32 v ->
  String.length (Packet.format_08x v) = 8%nat
  /\ Z.of_N (HexString.Raw.to_N (Packet.format_08x v) 0) = v.
Proof.
  unfold u32. intros Hv. destruct v as [|p|p]; [now split | | lia].
  cbn [Packet.format_08x]. split.
  - apply zfill_length.
    pose proof (of_pos_length 8 p "" ltac:(change (16 ^ Z.of_nat 8) with (2 ^ 32); lia)).
    cbn [String.length] in *. lia.
  - rewrite zfill_value, HexString.Raw.to_N_of_pos. reflexivity.
Qed.

Lemma string_app_inj (a a' b b' : string) :
  String.length a = String.length a' ->
  (a ++ b = a' ++ b')%string -> a = a' /\ b = b'.
Proof.
  revert a'. induction a as [|c a IH]; intros [|c' a'] Hl E;
    try discriminate Hl.
  - now split.
  - cbn in E. injection E as -> E. injection Hl as Hl.
    destruct (IH a' Hl E) as [-> ->]. now split.
Qed.

Lemma zeros_snoc (k : nat) (rest : string) :
  (zeros k ++ String "0" rest = String "0" (zeros k ++ rest))%string.
Proof.
  induction k as [|k IH]; [reflexivity|].
  change (String "0" (zeros k ++ String "0" rest)
          = String "0" (String "0" (zeros k ++ rest)))%string.
  now rewrite IH.
Qed.

Lemma hex_digits_zero (n : nat) :
  forall rest, hex_digits n 0 rest = (zeros n ++ rest)%string.
Proof.
  induction n as [|n IH]; intros rest; [reflexivity|].
  cbn [hex_digits]. change (0 / 16) with 0.
  change (hex_digit (0 mod 16)) with "0"%char.
  rewrite IH. apply zeros_snoc.
Qed.

Lemma hex_digits_step (n : nat) (q k : Z) (rest : string) :
  0 <= k < 16 ->
  hex_digits (S n) (16 * q + k) rest
  = hex_digits n q (String (hex_digit k) rest).
Proof.
  intros Hk. cbn [hex_digits].
  replace ((16 * q + k) / 16) with q
    by (apply (Z.div_unique _ 16 q k); lia).
  replace ((16 * q + k) mod 16) with k by (apply (Z.mod_unique _ 16 q k); lia).
  reflexivity.
Qed.

(** Write [p~a~b~c~d] as [16 * p + k]. *)
Ltac split_last_digit p :=
  match goal with
  | |- context [Z.pos (?f1 (?f2 (?f3 (?f4 p))))] =>
      let K := eval cbv in (Z.pos (f1 (f2 (f3 (f4 1%positive)))) - 16) in
      replace (Z.pos (f1 (f2 (f3 (f4 p))))) with (16 * Z.pos p + K) by lia
  end.

(** The digits of [of_pos], padded with zeros, are the last [n] hexadecimal
    digits of the value. *)
Lemma hex_digits_of_pos (n : nat) :
  forall (p : positive) (rest : string),
    Z.pos p < 16 ^ Z.of_nat n ->
    exists k : nat,
      (k + String.length (HexString.Raw.of_pos p rest)
       = n + String.length rest)%nat
      /\ hex_digits n (Z.pos p) rest
         = (zeros k ++ HexString.Raw.of_pos p rest)%string.
Proof.
  induction n as [|n IH]; intros p rest Hp.
  - cbn in Hp. lia.
  - rewrite Nat2Z.inj_succ, Z.pow_succ_r in Hp by lia.
    do 4 (try destruct p as [p|p|]);
      try (exists n; split; [cbn [HexString.Raw.of_pos String.length]; lia|];
           cbn [hex_digits HexString.Raw.of_pos]; apply hex_digits_zero);
      (split_last_digit p; rewrite hex_digits_step by lia;
       cbn [HexString.Raw.of_pos hex_digit];
       match goal with
       | |- context [HexString.Raw.of_pos p ?r] =>
           destruct (IH p r ltac:(lia)) as (k & Hk & E)
       end;
       exists k; split; [cbn [String.length] in Hk; lia | exact E]).
Qed.

Lemma hex_digits_8 (v : Z) : hex_digits 8 v "" = hex8 v.
Proof.
  unfold hex8. cbn [hex_digits map string_of_list_ascii].
  rewrite !Z.div_div by lia.
  change (16 ^ 0) with 1. rewrite Z.div_1_r.
  reflexivity.
Qed.

Lemma format_08x_hex8 (v : Z) : u32 v -> Packet.format_08x v = hex8 v.
Proof.
  unfold u32. intros Hv. rewrite <- hex_digits_8.
  destruct v as [|p|p]; [reflexivity | | lia].
  destruct (hex_digits_of_pos 8 p ""
              ltac:(change (16 ^ Z.of_nat 8) with (2 ^ 32); lia))
    as (k & Hk & ->).
  cbn [Packet.format_08x]. unfold Packet.zfill.
  cbn [String.length] in Hk.
  replace (8 - String.length (HexString.Raw.of_pos p ""))%nat with k by lia.
  reflexivity.
Qed.

(** X11.  The printed line shows the record and nothing else.  For a packet
    whose fields are unsigned 32-bit values, as [deserialize] leaves them,
    the line of [log] is ["x: 0x"], [", y: 0x"] and [", z: 0x"] each followed
    by the eight hexadecimal digits of the field, in lower case, the most
    significant first and with leading zeros, 43 characters in all; the
    digits read back as the field, and two such packets print the same line
    only when their three fields are the same. *)
Theorem log_shows_the_record (p q : Packet.t) :
  u32 (Packet.x p) -> u32 (Packet.y p) -> u32 (Packet.z p) ->
  u32 (Packet.x q) -> u32 (Packet.y q) -> u32 (Packet.z q) ->
  Packet.log p
  = ("x: 0x" ++ hex8 (Packet.x p) ++ ", y: 0x" ++ hex8 (Packet.y p)
       ++ ", z: 0x" ++ hex8 (Packet.z p))%string
  /\ String.length (Packet.log p) = 43%nat
  /\ Z.of_N (HexString.Raw.to_N (hex8 (Packet.x p)) 0) = Packet.x p
  /\ Z.of_N (HexString.Raw.to_N (hex8 (Packet.y p)) 0) = Packet.y p
  /\ Z.of_N (HexString.Raw.to_N (hex8 (Packet.z p)) 0) = Packet.z p
  /\ (Packet.log p = Packet.log q ->
      Packet.x p = Packet.x q /\ Packet.y p = Packet.y q
      /\ Packet.z p = Packet.z q).
Proof.
  intros Hx Hy Hz Hx' Hy' Hz'.
  destruct (format_08x_u32 _ Hx) as [Lx Vx].
  destruct (format_08x_u32 _ Hy) as [Ly Vy].
  destruct (format_08x_u32 _ Hz) as [Lz Vz].
  destruct (format_08x_u32 _ Hx') as [Lx' Vx'].
  destruct (format_08x_u32 _ Hy') as [Ly' Vy'].
  destruct (format_08x_u32 _ Hz') as [Lz' Vz'].
  split; [|split; [|split; [|split; [|split]]]].
  - unfold Packet.log. now rewrite !format_08x_hex8.
  - unfold Packet.log. rewrite !string_length_app, Lx, Ly, Lz. reflexivity.
  - now rewrite <- format_08x_hex8.
  - now rewrite <- format_08x_hex8.
  - now rewrite <- format_08x_hex8.
  - unfold Packet.log. intros E.
    apply (string_app_inj "x: 0x") in E as [_ E]; [|reflexivity].
    apply string_app_inj in E as [Ex E]; [|congruence].
    apply (string_app_inj ", y: 0x") in E as [_ E]; [|reflexivity].
    apply string_app_inj in E as [Ey E]; [|congruence].
    apply (string_app_inj ", z: 0x") in E as [_ Ez]; [|reflexivity].
    rewrite <- Vx, <- Vy, <- Vz, <- Vx', <- Vy', <- Vz'.
    now rewrite Ex, Ey, Ez.
Qed.

Lemma log_shows_the_record_witness :
  (u32 0xaa /\ u32 0xbb /\ u32 0xffffffff /\ u32 0xcc)
  /\ Packet.log (the_packet 0xaa 0xbb 0xffffffff)
     = "x: 0x000000aa, y: 0x000000bb, z: 0xffffffff"%string.
Proof.
  assert (Ha : u32 0xaa) by (unfold u32; lia).
  assert (Hb : u32 0xbb) by (unfold u32; lia).
  assert (Hc : u32 0xcc) by (unfold u32; lia).
  assert (Hf : u32 0xffffffff) by (unfold u32; lia).
  split; [now repeat split|].
  exact (proj1 (log_shows_the_record
                  (the_packet 0xaa 0xbb 0xffffffff)
                  (the_packet 0xaa 0xbb 0xcc) Ha Hb Hf Ha Hb Hc)).
Defined.
